(** * Blood-donor dashboard (data.py): a shallow embedding and its properties

    The program is one Streamlit script.  Its logic is a handful of form
    handlers over a Google spreadsheet (two worksheets: the donor table and
    the download log), a field validator, an export filter, a CSV export
    and an e-mail helper.  The embedding follows the script section by
    section and keeps its names. *)

From Stdlib Require Import List NArith ZArith Bool String Ascii Lia.
From Stdlib Require Import DecimalString DecimalPos.
From Stdlib Require DecimalFacts.
Import ListNotations.

Local Open Scope Z_scope.

(* ===================================================================== *)
(** ** Python strings *)
(* ===================================================================== *)

(** A Python [str] is a sequence of Unicode code points. *)
Definition str := list N.

(** A literal of the script: its characters are ASCII, one code point each. *)
Definition u (s : string) : str := map N_of_ascii (list_ascii_of_string s).

Fixpoint str_eqb (a b : str) : bool :=
  match a, b with
  | [], [] => true
  | x :: a', y :: b' => N.eqb x y && str_eqb a' b'
  | _, _ => false
  end.

(** Truth value of a string: [if s], [bool(s)], [not s]. *)
Definition truthy (s : str) : bool :=
  match s with [] => false | _ :: _ => true end.

(** [len(s)] *)
Definition len (s : str) : Z := Z.of_nat (List.length s).

(** The interpreter's Unicode character database, as far as the script
    consults it.  The character classes are per code point; the two case
    conversions are taken on whole strings, as [str.lower] and
    [str.capitalize] are context sensitive (final sigma) and may change the
    length (sharp s). *)
Class Unicode := {
  ch_isspace : N -> bool;            (* Py_UNICODE_ISSPACE: str.isspace, strip, split *)
  ch_isalpha : N -> bool;            (* str.isalpha: general category L* *)
  ch_isdigit : N -> bool;            (* str.isdigit: Numeric_Type Digit or Decimal *)
  ch_todecimal : N -> option Z;      (* Py_UNICODE_TODECIMAL: value of a decimal digit *)
  lower : str -> str;                (* str.lower *)
  capitalize : str -> str            (* str.capitalize *)
}.

(** What the theorems below use of the database: the digits of its ASCII
    block are 0 to 9 with their values, and a decimal digit is a digit and
    a digit is not a space. *)
Record UnicodeLaws (U : Unicode) : Prop := {
  ascii_isdigit : forall c, (c < 128)%N ->
    ch_isdigit c = ((48 <=? c) && (c <=? 57))%N;
  ascii_todecimal : forall c, (c < 128)%N ->
    ch_todecimal c =
      if ((48 <=? c) && (c <=? 57))%N then Some (Z.of_N c - 48) else None;
  decimal_isdigit : forall c d, ch_todecimal c = Some d -> ch_isdigit c = true;
  digit_not_space : forall c, ch_isdigit c = true -> ch_isspace c = false
}.

(** The Latin-1 block of the database (code points 0 to 255), which is all
    the examples below need.  Code points above it are left unclassified
    and unchanged. *)
Definition in_range (lo hi c : N) : bool := ((lo <=? c) && (c <=? hi))%N.

Definition latin1_isspace (c : N) : bool :=
  in_range 9 13 c || in_range 28 32 c || (c =? 133)%N || (c =? 160)%N.

Definition latin1_isalpha (c : N) : bool :=
  in_range 65 90 c || in_range 97 122 c
  || (c =? 170)%N || (c =? 181)%N || (c =? 186)%N
  || in_range 192 214 c || in_range 216 246 c || in_range 248 255 c.

Definition latin1_isdigit (c : N) : bool :=
  in_range 48 57 c || (c =? 178)%N || (c =? 179)%N || (c =? 185)%N.

Definition latin1_todecimal (c : N) : option Z :=
  if in_range 48 57 c then Some (Z.of_N c - 48) else None.

Definition latin1_tolower (c : N) : N :=
  if in_range 65 90 c || in_range 192 214 c || in_range 216 222 c
  then (c + 32)%N else c.

(** Title case of one character: sharp s becomes [Ss], and y with diaeresis
    and the micro sign leave the block. *)
Definition latin1_totitle (c : N) : str :=
  if in_range 97 122 c || in_range 224 246 c || in_range 248 254 c
  then [(c - 32)%N]
  else if (c =? 223)%N then [83; 115]%N
  else if (c =? 255)%N then [376]%N
  else if (c =? 181)%N then [924]%N
  else [c].

Definition latin1_capitalize (s : str) : str :=
  match s with
  | [] => []
  | c :: r => latin1_totitle c ++ map latin1_tolower r
  end.

Definition latin1 : Unicode := {|
  ch_isspace := latin1_isspace;
  ch_isalpha := latin1_isalpha;
  ch_isdigit := latin1_isdigit;
  ch_todecimal := latin1_todecimal;
  lower := map latin1_tolower;
  capitalize := latin1_capitalize
|}.

(* ===================================================================== *)
(** ** Exceptions *)
(* ===================================================================== *)

Inductive exn : Type :=
| ValueError           (* int() of a bad literal, list.index of a missing item,
                          DataFrame of a grid that is not five cells wide *)
| AttributeError       (* a method called on None *)
| IndexError           (* iloc out of bounds *)
| EmailNotValidError   (* validate_email *)
| SMTPException.       (* smtplib: connect, login or sendmail failed *)

Inductive result (A : Type) : Type :=
| Ok (a : A)
| Raise (e : exn).
Arguments Ok {A} a.
Arguments Raise {A} e.

Definition rbind {A B} (r : result A) (k : A -> result B) : result B :=
  match r with
  | Ok a => k a
  | Raise e => Raise e
  end.

Section Strings.
Context {U : Unicode}.

(** [s.isdigit()], [s.isalpha()]: every character in the class, and at
    least one character. *)
Definition isdigit (s : str) : bool := truthy s && forallb ch_isdigit s.
Definition isalpha (s : str) : bool := truthy s && forallb ch_isalpha s.

(** [s.strip()] *)
Fixpoint lstrip (s : str) : str :=
  match s with
  | c :: r => if ch_isspace c then lstrip r else s
  | [] => []
  end.
Definition rstrip (s : str) : str := rev (lstrip (rev s)).
Definition strip (s : str) : str := rstrip (lstrip s).

(** [s.split()]: the maximal runs of non-space characters; [cur] is the
    run being read, last character first. *)
Fixpoint split_from (cur : str) (s : str) : list str :=
  match s with
  | [] => match cur with [] => [] | _ => [rev cur] end
  | c :: r =>
      if ch_isspace c
      then match cur with [] => split_from [] r | _ => rev cur :: split_from [] r end
      else split_from (c :: cur) r
  end.
Definition split (s : str) : list str := split_from [] s.

(** [sep.join(parts)] *)
Fixpoint join (sep : str) (parts : list str) : str :=
  match parts with
  | [] => []
  | [p] => p
  | p :: ps => p ++ sep ++ join sep ps
  end.

(** *** [int(s)]

    CPython first maps the string to ASCII: an ASCII character stays, any
    other space becomes a blank, any other decimal digit becomes its ASCII
    digit, and anything else makes the literal invalid.  The ASCII text is
    then read as: blanks, an optional sign, digits with single underscores
    between them, blanks.  A literal with more digits than the
    interpreter's limit is refused with ValueError as well, whatever its
    value: the limit is 4300 digits unless the program or its environment
    sets another one ([sys.set_int_max_str_digits]), which this script
    does not do. *)
Inductive tok : Type :=
| TSpace | TSign (neg : bool) | TUnder | TDigit (d : Z) | TBad.

Definition tok_of (c : N) : tok :=
  if (c <? 127)%N then
    if in_range 9 13 c || (c =? 32)%N then TSpace
    else if (c =? 43)%N then TSign false
    else if (c =? 45)%N then TSign true
    else if (c =? 95)%N then TUnder
    else if in_range 48 57 c then TDigit (Z.of_N c - 48)
    else TBad
  else if ch_isspace c then TSpace
  else match ch_todecimal c with
       | Some d => TDigit d
       | None => TBad
       end.

Definition is_tspace (t : tok) : bool :=
  match t with TSpace => true | _ => false end.

Fixpoint skip_space (ts : list tok) : list tok :=
  match ts with
  | TSpace :: r => skip_space r
  | _ => ts
  end.

(** The digits after the first one; [acc] is the value read so far. *)
Fixpoint int_digits (acc : Z) (ts : list tok) : option Z :=
  match ts with
  | [] => Some acc
  | TDigit d :: r => int_digits (10 * acc + d) r
  | TUnder :: TDigit d :: r => int_digits (10 * acc + d) r
  | TSpace :: r => if forallb is_tspace r then Some acc else None
  | _ => None
  end.

Definition int_literal (s : str) : option Z :=
  let ts := skip_space (map tok_of s) in
  let '(neg, ts) :=
    match ts with
    | TSign b :: r => (b, r)
    | _ => (false, ts)
    end in
  match ts with
  | TDigit d :: r =>
      option_map (fun v => if neg then - v else v) (int_digits d r)
  | _ => None
  end.

(** The limit on the digits of a literal, and the digits of a string:
    signs, blanks and underscores do not count, leading zeros do. *)
Definition int_max_str_digits : Z := 4300.

Definition is_tdigit (t : tok) : bool :=
  match t with TDigit _ => true | _ => false end.

Definition int_str_digits (s : str) : Z :=
  Z.of_nat (List.length (filter is_tdigit (map tok_of s))).

Definition int (s : str) : result Z :=
  match int_literal s with
  | Some v =>
      if int_max_str_digits <? int_str_digits s
      then Raise ValueError
      else Ok v
  | None => Raise ValueError
  end.

End Strings.

(** [str(n)] of an integer *)
Definition str_of_int (n : Z) : str :=
  match n with
  | Zneg p => u "-" ++ u (NilEmpty.string_of_uint (Pos.to_uint p))
  | Zpos p => u (NilEmpty.string_of_uint (Pos.to_uint p))
  | Z0 => u "0"
  end.

(* ===================================================================== *)
(** ** Field validation (the add form, lines 138 to 144) *)
(* ===================================================================== *)

Section Validation.
Context {U : Unicode}.

(** [bool(name and all(ch.isalpha() or ch.isspace() for ch in name))] *)
Definition name_valid (name : str) : bool :=
  truthy name && forallb (fun ch => ch_isalpha ch || ch_isspace ch) name.

(** [age.isdigit() and 18 <= int(age) <= 65 if age else False] *)
Definition age_valid (age : str) : result bool :=
  if truthy age then
    if isdigit age
    then rbind (int age) (fun v => Ok ((18 <=? v) && (v <=? 65)))
    else Ok false
  else Ok false.

(** [bool(blood_group)] *)
Definition blood_group_valid (blood_group : str) : bool := truthy blood_group.

(** [contact.isdigit() and len(contact) == 10 if contact else False] *)
Definition contact_valid (contact : str) : bool :=
  if truthy contact then isdigit contact && (len contact =? 10) else false.

(** [location.isalpha() and len(location) <= 20 if location else False] *)
Definition location_valid (location : str) : bool :=
  if truthy location then isalpha location && (len location <=? 20) else false.

Record Validity := {
  v_name : bool; v_age : bool; v_blood_group : bool;
  v_contact : bool; v_location : bool;
  all_valid : bool
}.

(** The validation block, in the order of the script. *)
Definition validate (name age blood_group contact location : str)
  : result Validity :=
  let nv := name_valid name in
  rbind (age_valid age) (fun av =>
  let bv := blood_group_valid blood_group in
  let cv := contact_valid contact in
  let lv := location_valid location in
  Ok {| v_name := nv; v_age := av; v_blood_group := bv;
        v_contact := cv; v_location := lv;
        all_valid := nv && av && bv && cv && lv |}).

End Validation.

(* ===================================================================== *)
(** ** The spreadsheet (gspread) *)
(* ===================================================================== *)

(** A worksheet holds rows of cell values; the API hands every value back
    as a string. *)
Definition Row := list str.
Definition Grid := list Row.

(** The workbook behind [client]: [sheet] is the donor table, [log_sheet]
    the download log.  A call to a worksheet that is there is taken to go
    through. *)
Record Workbook := {
  sheet : Grid;
  log_sheet : Grid
}.

(** [get_all_values()] pads every row with empty cells to the width of the
    widest one. *)
Definition width (g : Grid) : nat :=
  fold_right (fun r m => Nat.max (List.length r) m) 0%nat g.

Definition fill_gaps (g : Grid) : Grid :=
  map (fun r => r ++ repeat [] (width g - List.length r)%nat) g.

Definition get_all_values (g : Grid) : Grid := fill_gaps g.

(** [update("A{n}:E{n}", [vals])] overwrites the first cells of row [n]
    (counted from 1) and leaves the cells to their right alone.  Row
    [length + 1] is the first free row; rows further down are reached
    over blank rows.  [write_row] counts rows from 0. *)
Definition set_row (vals old : Row) : Row := vals ++ skipn (List.length vals) old.

Fixpoint write_row (i : nat) (vals : Row) (g : Grid) : Grid :=
  match i, g with
  | O, [] => [vals]
  | O, r :: g' => set_row vals r :: g'
  | S i', [] => [] :: write_row i' vals []
  | S i', r :: g' => r :: write_row i' vals g'
  end.

Definition update (n : nat) (vals : Row) (g : Grid) : Grid :=
  write_row (n - 1) vals g.

(** [delete_rows(n)] removes row [n] (counted from 1); the rows below move
    up.  [remove_row] counts rows from 0. *)
Fixpoint remove_row (i : nat) (g : Grid) : Grid :=
  match g, i with
  | [], _ => []
  | _ :: g', O => g'
  | r :: g', S i' => r :: remove_row i' g'
  end.

Definition delete_rows (n : nat) (g : Grid) : Grid := remove_row (n - 1) g.

(* ===================================================================== *)
(** ** Data frames (pandas) *)
(* ===================================================================== *)

(** A row of a frame with the columns name, age, blood_group, contact,
    location. *)
Record Donor := {
  col_name : str;
  col_age : str;
  col_blood_group : str;
  col_contact : str;
  col_location : str
}.

Definition DataFrame := list Donor.

(** [pd.DataFrame(rows, columns=expected_headers)] of a rectangular grid:
    five cells a row, or the constructor raises. *)
Definition record_of (r : Row) : result Donor :=
  match r with
  | [a; b; c; d; e] =>
      Ok {| col_name := a; col_age := b; col_blood_group := c;
            col_contact := d; col_location := e |}
  | _ => Raise ValueError
  end.

Fixpoint frame_of (rows : Grid) : result DataFrame :=
  match rows with
  | [] => Ok []
  | r :: rs =>
      rbind (record_of r) (fun d =>
      rbind (frame_of rs) (fun ds => Ok (d :: ds)))
  end.

Definition cells (d : Donor) : Row :=
  [col_name d; col_age d; col_blood_group d; col_contact d; col_location d].

Definition expected_headers : Row :=
  [u "name"; u "age"; u "blood_group"; u "contact"; u "location"].

(** *** [to_csv(index=False)]

    The header line and one line a row, fields joined by commas and every
    line ended by [os.linesep]: a line feed, or on Windows a carriage
    return and a line feed.  A field with a comma, a double quote or a
    character of the line ending in it is written between double quotes,
    with its double quotes doubled (QUOTE_MINIMAL). *)
Inductive Platform : Type := Posix | Windows.

Definition comma : N := 44%N.
Definition dquote : N := 34%N.
Definition newline : N := 10%N.
Definition creturn : N := 13%N.

Definition linesep (os : Platform) : str :=
  match os with
  | Posix => [newline]
  | Windows => [creturn; newline]
  end.

Definition special (os : Platform) (c : N) : bool :=
  (c =? comma)%N || (c =? dquote)%N || existsb (N.eqb c) (linesep os).

Fixpoint double_quotes (f : str) : str :=
  match f with
  | [] => []
  | c :: r =>
      if (c =? dquote)%N then dquote :: dquote :: double_quotes r
      else c :: double_quotes r
  end.

Definition csv_field (os : Platform) (f : str) : str :=
  if existsb (special os) f then dquote :: double_quotes f ++ [dquote] else f.

Fixpoint csv_fields (os : Platform) (fs : Row) : str :=
  match fs with
  | [] => linesep os
  | [f] => csv_field os f ++ linesep os
  | f :: fs' => csv_field os f ++ comma :: csv_fields os fs'
  end.

Definition to_csv (os : Platform) (df : DataFrame) : str :=
  csv_fields os expected_headers
  ++ List.concat (map (fun d => csv_fields os (cells d)) df).

(* ===================================================================== *)
(** ** The running script: state, messages, exceptions *)
(* ===================================================================== *)

(** The messages the handlers put on the page. *)
Inductive Msg : Type :=
| ErrNameChars | ErrAgeRange | ErrPhoneDigits | ErrLocationChars
| ErrDonorExists | OkDonorAdded
| InfoNoDonors
| ErrProvideEmail | WarnTickCheckbox
| OkListSent (email blood_group locations timestamp : str)
| ErrFailedToSend
| ErrNoCredentials | OkEmailSent | ErrInvalidEmail | ErrSendFailed
| ErrAnotherDonorExists | OkDonorUpdated | ErrInvalidUpdateValues
| WarnInvalidIndex
| ErrConfirmDelete | OkDonorDeleted | InfoDeleteCancelled.

(** A message handed to the SMTP server. *)
Record Mail := {
  mail_from : str;
  mail_to : str;
  mail_attachment : str
}.

Record World := {
  book : option Workbook;   (* [None]: no client, [sheet] and [log_sheet] are None *)
  page : list Msg;          (* messages shown, oldest first *)
  outbox : list Mail;       (* send attempts made over SMTP, oldest first *)
  manage_open : bool        (* st.session_state.manage_open *)
}.

(** What a run reads from outside: the clock, the operating system, the
    address checker of the email_validator package, the credentials and
    whether the mail server takes the message. *)
Record Env := {
  now : str;
  platform : Platform;
  validate_email : str -> bool;
  secrets_sender : option str;
  secrets_pass : option str;
  getenv_sender : option str;
  getenv_pass : option str;
  smtp_accepts : Mail -> bool
}.

(** Statements of the script: they change the world and end normally or
    with an exception; what was done before an exception stays done. *)
Definition M (A : Type) : Type := World -> result A * World.

Definition ret {A} (a : A) : M A := fun w => (Ok a, w).

Definition bind {A B} (m : M A) (k : A -> M B) : M B :=
  fun w =>
    match m w with
    | (Ok a, w') => k a w'
    | (Raise e, w') => (Raise e, w')
    end.

Definition throw {A} (e : exn) : M A := fun w => (Raise e, w).

Definition lift {A} (r : result A) : M A := fun w => (r, w).

(** [try: m except Exception as e: h e] *)
Definition catch {A} (m : M A) (h : exn -> M A) : M A :=
  fun w =>
    match m w with
    | (Ok a, w') => (Ok a, w')
    | (Raise e, w') => h e w'
    end.

Declare Scope script_scope.
Delimit Scope script_scope with script.
Notation "x <- m ;; k" := (bind m (fun x => k))
  (at level 61, m at next level, right associativity) : script_scope.
Notation "m ;; k" := (bind m (fun _ => k))
  (at level 61, right associativity) : script_scope.
Local Open Scope script_scope.

Definition say (m : Msg) : M unit := fun w =>
  (Ok tt, {| book := book w; page := page w ++ [m];
             outbox := outbox w; manage_open := manage_open w |}).

Definition set_manage_open (b : bool) : M unit := fun w =>
  (Ok tt, {| book := book w; page := page w;
             outbox := outbox w; manage_open := b |}).

Definition set_sheet (g : Grid) : M unit := fun w =>
  (Ok tt,
   {| book := option_map (fun b => {| sheet := g; log_sheet := log_sheet b |}) (book w);
      page := page w; outbox := outbox w; manage_open := manage_open w |}).

Definition set_log_sheet (g : Grid) : M unit := fun w =>
  (Ok tt,
   {| book := option_map (fun b => {| sheet := sheet b; log_sheet := g |}) (book w);
      page := page w; outbox := outbox w; manage_open := manage_open w |}).

(** [sheet.m(...)] and [log_sheet.m(...)]: on [None] the attribute lookup
    raises. *)
Definition the_sheet : M Grid := fun w =>
  match book w with
  | Some b => (Ok (sheet b), w)
  | None => (Raise AttributeError, w)
  end.

Definition the_log_sheet : M Grid := fun w =>
  match book w with
  | Some b => (Ok (log_sheet b), w)
  | None => (Raise AttributeError, w)
  end.

Definition when (b : bool) (m : M unit) : M unit := if b then m else ret tt.

Definition empty {A} (l : list A) : bool :=
  match l with [] => true | _ :: _ => false end.

(* ===================================================================== *)
(** ** Donor functions (lines 64 to 88) *)
(* ===================================================================== *)

(** [append_row(vals)] puts the row under the last one. *)
Definition append_row (vals : Row) (g : Grid) : Grid := g ++ [vals].

(** [if sheet: sheet.append_row([name, age, blood_group, contact, location])]
    (defined by the script, and not called by it) *)
Definition add_donor (name age blood_group contact location : str) : M unit :=
  fun w =>
    match book w with
    | Some b =>
        set_sheet (append_row [name; age; blood_group; contact; location]
                     (sheet b)) w
    | None => (Ok tt, w)
    end.

Definition get_donors : M DataFrame := fun w =>
  match book w with
  | None => (Ok [], w)
  | Some b =>
      let values := get_all_values (sheet b) in
      if (1 <? List.length values)%nat
      then (frame_of (tl values), w)
      else (Ok [], w)
  end.

(** [if sheet: sheet.update(f"A{row_index}:E{row_index}", [new_values])] *)
Definition update_donor (row_index : nat) (new_values : Row) : M unit := fun w =>
  match book w with
  | Some b => set_sheet (update row_index new_values (sheet b)) w
  | None => (Ok tt, w)
  end.

(** [if sheet: sheet.delete_rows(row_index)] *)
Definition delete_donor (row_index : nat) : M unit := fun w =>
  match book w with
  | Some b => set_sheet (delete_rows row_index (sheet b)) w
  | None => (Ok tt, w)
  end.

(* ===================================================================== *)
(** ** The handlers of the Donors tab *)
(* ===================================================================== *)

Section Handlers.
Context {U : Unicode}.
Variable E : Env.

(** [log_download] (defined by the script, and not called by it: the
    download handler writes its log row itself) *)
Definition log_download (email blood_group : str) (locations : list str)
  : M unit := fun w =>
    match book w with
    | Some b =>
        let timestamp := now E in
        set_log_sheet
          (append_row [email; blood_group;
                       if negb (empty locations) then join (u ", ") locations
                       else u "All";
                       timestamp]
             (log_sheet b)) w
    | None => (Ok tt, w)
    end.

(** The rows of [df] with the given name, up to case, and contact:
    [df[(df["name"].str.lower() == name.lower()) & (df["contact"] == contact)]] *)
Definition same_donor (name contact : str) (d : Donor) : bool :=
  str_eqb (lower (col_name d)) (lower name) && str_eqb (col_contact d) contact.

(** *** Add donor (lines 130 to 172)

    The handler of one run of the script in which the form holds the five
    values; [submitted] tells whether the button was pressed.  The
    [st.rerun()] after a successful write ends the run. *)
Definition add_donor_form (submitted : bool)
    (name age blood_group contact location : str) : M unit :=
  v <- lift (validate name age blood_group contact location) ;;
  when (truthy name && negb (v_name v)) (say ErrNameChars) ;;
  when (truthy age && negb (v_age v)) (say ErrAgeRange) ;;
  when (truthy contact && negb (v_contact v)) (say ErrPhoneDigits) ;;
  when (truthy location && negb (v_location v)) (say ErrLocationChars) ;;
  if submitted && all_valid v then
    let name := join (u " ") (map capitalize (split (strip name))) in
    let location := capitalize (strip location) in
    df <- get_donors ;;
    let duplicate := filter (same_donor name contact) df in
    if negb (empty duplicate) then say ErrDonorExists
    else
      values <- (g <- the_sheet ;; ret (get_all_values g)) ;;
      let next_row := (List.length values + 1)%nat in
      a <- lift (int age) ;;
      g <- the_sheet ;;
      set_sheet (update next_row [name; str_of_int a; blood_group; contact; location] g) ;;
      say OkDonorAdded
  else ret tt.

(** *** Donor list (lines 175 to 181)

    [str(x)[:-4] + "****" if len(str(x)) > 4 else "****"] *)
Definition mask_contact (x : str) : str :=
  if 4 <? len x
  then firstn (List.length x - 4) x ++ u "****"
  else u "****".

Definition mask_row (d : Donor) : Donor :=
  {| col_name := col_name d; col_age := col_age d;
     col_blood_group := col_blood_group d;
     col_contact := mask_contact (col_contact d);
     col_location := col_location d |}.

(** The frame shown, if one is shown. *)
Definition donor_list : M (option DataFrame) :=
  df <- get_donors ;;
  if negb (empty df) then ret (Some (map mask_row df))
  else say InfoNoDonors ;; ret None.

(** *** Download via e-mail (lines 91 to 122 and 184 to 240)

    The lists of blood groups and locations read from the table only fill
    the two selection widgets; the handler takes what was selected. *)

(** [with smtplib.SMTP_SSL(...) as server: login; sendmail] *)
Definition smtp_send (m : Mail) : M unit := fun w =>
  let w' := {| book := book w; page := page w;
               outbox := outbox w ++ [m]; manage_open := manage_open w |} in
  if smtp_accepts E m then (Ok tt, w') else (Raise SMTPException, w').

Definition send_email (recipient csv_data : str) : M unit :=
  catch
    ((if validate_email E recipient then ret tt else throw EmailNotValidError) ;;
     let '(sender, password) :=
       match secrets_sender E, secrets_pass E with
       | Some s, Some p => (Some s, Some p)
       | _, _ => (getenv_sender E, getenv_pass E)
       end in
     match sender, password with
     | Some s, Some p =>
         (* [if not sender or not password] *)
         if negb (truthy s) || negb (truthy p) then say ErrNoCredentials
         else
           smtp_send {| mail_from := s; mail_to := recipient;
                        mail_attachment := csv_data |} ;;
           say OkEmailSent
     | _, _ => say ErrNoCredentials
     end)
    (fun e =>
       match e with
       | EmailNotValidError => say ErrInvalidEmail
       | _ => say ErrSendFailed
       end).

(** The export filter (lines 212 to 219). *)
Definition filtered_df (df : DataFrame) (blood_group : str)
    (selected_locations : list str) : DataFrame :=
  let filtered_df :=
    if negb (str_eqb blood_group (u "All"))
    then filter (fun d => str_eqb (col_blood_group d) blood_group) df
    else df in
  if negb (existsb (str_eqb (u "All Locations")) selected_locations) then
    if negb (empty selected_locations)
    then filter (fun d => existsb (str_eqb (col_location d)) selected_locations)
                filtered_df
    else filtered_df
  else filtered_df.

Definition csv_data (df : DataFrame) (blood_group : str)
    (selected_locations : list str) : str :=
  to_csv (platform E) (filtered_df df blood_group selected_locations).

Definition locations_text (selected_locations : list str) : str :=
  if negb (empty selected_locations)
  then join (u ", ") selected_locations
  else u "All Locations".

Definition download_email_form (email_address blood_group : str)
    (selected_locations : list str) (confirm_send : bool) : M unit :=
  df <- get_donors ;;
  if negb (truthy email_address) then say ErrProvideEmail
  else if negb confirm_send then say WarnTickCheckbox
  else
    let timestamp := now E in
    catch
      (send_email email_address (csv_data df blood_group selected_locations) ;;
       say (OkListSent email_address blood_group
              (locations_text selected_locations) timestamp))
      (fun _ => say ErrFailedToSend) ;;
    let row_data :=
      [email_address; blood_group; locations_text selected_locations; timestamp] in
    values <- (g <- the_log_sheet ;; ret (get_all_values g)) ;;
    let next_row := (List.length values + 1)%nat in
    g <- the_log_sheet ;;
    set_log_sheet (update next_row row_data g).

(** *** Donor management (lines 243 to 305)

    [apply], [confirm] and [cancel] tell which button was pressed in the
    run.  Of the session state only [manage_open] is kept; the widget keys
    the update path deletes have no part in what is written. *)

Definition blood_groups : list str :=
  [u "A+"; u "A-"; u "B+"; u "B-"; u "O+"; u "O-"; u "AB+"; u "AB-"].

(** [l.index(x)] *)
Fixpoint index (l : list str) (x : str) : result nat :=
  match l with
  | [] => Raise ValueError
  | y :: l' => if str_eqb y x then Ok O else rbind (index l' x) (fun i => Ok (S i))
  end.

(** The row number comes from a number input with [min_value=1]. *)
Definition manage_update (row_index : positive) (apply : bool)
    (new_name new_age new_blood new_contact new_location : str) : M unit :=
  df <- get_donors ;;
  if negb (empty df) && (Pos.to_nat row_index <=? List.length df)%nat then
    donor <- lift (match nth_error df (Pos.to_nat row_index - 1) with
                   | Some d => Ok d
                   | None => Raise IndexError
                   end) ;;
    _ <- lift (index blood_groups (col_blood_group donor)) ;;
    if apply then
      if truthy new_name && isdigit new_age && truthy new_contact
         && truthy new_location then
        let duplicate := filter (same_donor new_name new_contact) df in
        if negb (empty duplicate)
           && negb (str_eqb (lower (col_name donor)) (lower new_name)
                    && str_eqb (col_contact donor) new_contact)
        then say ErrAnotherDonorExists
        else
          a <- lift (int new_age) ;;
          update_donor (Pos.to_nat row_index + 1)
            [new_name; str_of_int a; new_blood; new_contact; new_location] ;;
          say OkDonorUpdated ;;
          _ <- get_donors ;;
          set_manage_open false
      else say ErrInvalidUpdateValues
    else ret tt
  else say WarnInvalidIndex.

Definition manage_delete (row_index : positive) (confirm cancel : bool) : M unit :=
  df <- get_donors ;;
  if negb (empty df) && (Pos.to_nat row_index <=? List.length df)%nat then
    _ <- lift (match nth_error df (Pos.to_nat row_index - 1) with
               | Some d => Ok d
               | None => Raise IndexError
               end) ;;
    say ErrConfirmDelete ;;
    when confirm
      (delete_donor (Pos.to_nat row_index + 1) ;;
       say OkDonorDeleted ;;
       _ <- get_donors ;;
       set_manage_open false) ;;
    when cancel
      (say InfoDeleteCancelled ;;
       set_manage_open false)
  else say WarnInvalidIndex.

End Handlers.

(* ===================================================================== *)
(** ** Reading the export back *)
(* ===================================================================== *)

(** Modelled from the spec: the reader of the delimited export format.  The
    script only writes the export (it is mailed as [donors.csv]); the reader
    is the one the round-trip property of the specification presupposes.
    It reads fields separated by commas in lines ended by a line feed; a
    field that opens with a double quote runs to the closing double quote,
    and a doubled double quote inside it stands for one. *)
Inductive scan_state : Type :=
| Plain      (* in a field written as it is, or at the start of a field *)
| Quoted     (* inside double quotes *)
| Closed     (* just after a double quote met inside double quotes *)
| Return.    (* after the carriage return of a line ending *)

Definition crlf (os : Platform) : bool :=
  match os with
  | Posix => false
  | Windows => true
  end.

(** [fld] is the field being read, last character first; [row] the fields
    of the line read so far, last field first.  A line ends at a line feed
    and, where lines end in a carriage return and a line feed, at that
    pair. *)
Fixpoint scan (os : Platform) (st : scan_state) (fld : str) (row : Row)
    (s : str) : option Grid :=
  match s with
  | [] =>
      match st, fld, row with
      | Plain, [], [] => Some []
      | _, _, _ => None
      end
  | c :: s' =>
      match st with
      | Quoted =>
          if (c =? dquote)%N then scan os Closed fld row s'
          else scan os Quoted (c :: fld) row s'
      | Plain =>
          if (c =? dquote)%N then
            match fld with
            | [] => scan os Quoted [] row s'
            | _ :: _ => None
            end
          else if (c =? comma)%N then scan os Plain [] (rev fld :: row) s'
          else if (c =? newline)%N then
            option_map (cons (rev (rev fld :: row))) (scan os Plain [] [] s')
          else if crlf os && (c =? creturn)%N then
            scan os Return [] (rev fld :: row) s'
          else scan os Plain (c :: fld) row s'
      | Closed =>
          if (c =? dquote)%N then scan os Quoted (c :: fld) row s'
          else if (c =? comma)%N then scan os Plain [] (rev fld :: row) s'
          else if (c =? newline)%N then
            option_map (cons (rev (rev fld :: row))) (scan os Plain [] [] s')
          else if crlf os && (c =? creturn)%N then
            scan os Return [] (rev fld :: row) s'
          else None
      | Return =>
          if (c =? newline)%N then
            option_map (cons (rev row)) (scan os Plain [] [] s')
          else None
      end
  end.

Definition parse_csv (os : Platform) (s : str) : option Grid :=
  scan os Plain [] [] s.

Fixpoint row_eqb (a b : Row) : bool :=
  match a, b with
  | [], [] => true
  | x :: a', y :: b' => str_eqb x y && row_eqb a' b'
  | _, _ => false
  end.

(** The header line names the columns; the other lines are the records. *)
Definition read_csv (os : Platform) (s : str) : option DataFrame :=
  match parse_csv os s with
  | Some (header :: rows) =>
      if row_eqb header expected_headers then
        match frame_of rows with
        | Ok df => Some df
        | Raise _ => None
        end
      else None
  | _ => None
  end.

(* ===================================================================== *)
(** ** The properties of the specification, in terms of the model *)
(* ===================================================================== *)

Section SpecTerms.
Context {U : Unicode}.

(** The identity of a donor: the name up to case, and the contact. *)
Definition identity (d : Donor) : str * str := (lower (col_name d), col_contact d).

(** No two rows of the table share an identity. *)
Definition unique (df : DataFrame) : Prop := NoDup (map identity df).

(** The sheet is a donor table: every row, the header too, is five cells
    wide. *)
Definition donor_sheet (g : Grid) : Prop :=
  Forall (fun r => List.length r = 5%nat) g.

(** The donor table of a world: what [get_donors] reads. *)
Definition table (w : World) : result DataFrame := fst (get_donors w).

(** A decimal digit, and the number a string of decimal digits writes. *)
Definition decimal_digit (c : N) : Prop := exists d, ch_todecimal c = Some d.

Definition is_decimal (c : N) : bool :=
  match ch_todecimal c with Some _ => true | None => false end.

Definition digit_value (c : N) : Z :=
  match ch_todecimal c with
  | Some d => d
  | None => 0
  end.

Definition number_of (s : str) : Z :=
  fold_left (fun acc c => 10 * acc + digit_value c) s 0.

Definition pure_digit_string (s : str) : Prop :=
  s <> [] /\ Forall decimal_digit s.

(** The name and the location as the add path stores them. *)
Definition normal_name (name : str) : str :=
  join (u " ") (map capitalize (split (strip name))).

Definition normal_location (location : str) : str := capitalize (strip location).

(** The donor table of the world is a five-column sheet whose rows have
    pairwise different identities. *)
Definition unique_table (w : World) : Prop :=
  (forall b, book w = Some b -> donor_sheet (sheet b)) /\
  exists df, table w = Ok df /\ unique df.

(** The rows an export request asks for, in the words of the
    specification: the blood group is the selected one unless the selection
    is [All], and the location is among the selected ones unless none is
    selected or [All Locations] is among them. *)
Definition requested (blood_group : str) (selected_locations : list str)
    (d : Donor) : bool :=
  (str_eqb blood_group (u "All") || str_eqb (col_blood_group d) blood_group)
  && (empty selected_locations
      || existsb (str_eqb (u "All Locations")) selected_locations
      || existsb (str_eqb (col_location d)) selected_locations).

End SpecTerms.

(* ===================================================================== *)
(** ** Worlds and rows for the examples *)
(* ===================================================================== *)

(** A world with a workbook, nothing shown and nothing sent yet. *)
Definition world_of (g lg : Grid) : World :=
  {| book := Some {| sheet := g; log_sheet := lg |};
     page := []; outbox := []; manage_open := false |}.

(** A world without a client. *)
Definition offline : World :=
  {| book := None; page := []; outbox := []; manage_open := false |}.

Definition donor (n a g c l : string) : Donor :=
  {| col_name := u n; col_age := u a; col_blood_group := u g;
     col_contact := u c; col_location := u l |}.

Definition ann : Donor := donor "Ann Lee" "30" "O+" "9876543210" "Pune".
Definition bob : Donor := donor "Bob" "45" "A-" "9123456780" "Goa".

Definition log_headers : Row :=
  [u "recipient"; u "blood_group_filter"; u "location_filter"; u "timestamp"].

(** A workbook with two donors and an empty log. *)
Definition two_donors : World :=
  world_of [expected_headers; cells ann; cells bob] [log_headers].

(** A stand-in for the address checker of the email_validator package, for
    the examples: it asks for one at sign with text before it and a dot
    after it.  Like the package it turns down [not-an-email]. *)
Fixpoint count_at (s : str) : nat :=
  match s with
  | [] => 0%nat
  | c :: r => ((if (c =? 64)%N then 1 else 0) + count_at r)%nat
  end.

Fixpoint after_at (s : str) : str :=
  match s with
  | [] => []
  | c :: r => if (c =? 64)%N then r else after_at r
  end.

Definition has_at_and_dot (s : str) : bool :=
  (count_at s =? 1)%nat
  && negb (match s with c :: _ => (c =? 64)%N | [] => true end)
  && existsb (fun c => (c =? 46)%N) (after_at s)
  && negb (empty (after_at s)).

(** A run in which the credentials are configured and the mail server
    takes every message. *)
Definition env_ok : Env :=
  {| now := u "2024-01-01 12:00:00";
     platform := Posix;
     validate_email := has_at_and_dot;
     secrets_sender := Some (u "bank@example.org");
     secrets_pass := Some (u "secret");
     getenv_sender := None;
     getenv_pass := None;
     smtp_accepts := fun _ => true |}.

(* ===================================================================== *)
(** ** Terms for the further properties *)
(* ===================================================================== *)

(** The sender and password [send_email] logs in with, if it finds both
    and neither is empty: the two secrets when both are set, and the two
    environment variables otherwise. *)
Definition credentials (E : Env) : option (str * str) :=
  let '(sender, password) :=
    match secrets_sender E, secrets_pass E with
    | Some s, Some p => (Some s, Some p)
    | _, _ => (getenv_sender E, getenv_pass E)
    end in
  match sender, password with
  | Some s, Some p => if truthy s && truthy p then Some (s, p) else None
  | _, _ => None
  end.

(** The row the download handler writes to the log. *)
Definition log_row (E : Env) (email_address blood_group : str)
    (selected_locations : list str) : Row :=
  [email_address; blood_group; locations_text selected_locations; now E].

(** The tokens [int] reads from the decimal writing of a number. *)
Definition uint_tokens {U : Unicode} (d : Decimal.uint) : list tok :=
  map tok_of (u (NilEmpty.string_of_uint d)).

(** The decimal numeral that a string of decimal digits writes. *)
Definition decimal_digit_of (v : Z) (d : Decimal.uint) : Decimal.uint :=
  match v with
  | 0 => Decimal.D0 d
  | 1 => Decimal.D1 d
  | 2 => Decimal.D2 d
  | 3 => Decimal.D3 d
  | 4 => Decimal.D4 d
  | 5 => Decimal.D5 d
  | 6 => Decimal.D6 d
  | 7 => Decimal.D7 d
  | 8 => Decimal.D8 d
  | _ => Decimal.D9 d
  end.

Fixpoint uint_of_digits {U : Unicode} (s : str) : Decimal.uint :=
  match s with
  | [] => Decimal.Nil
  | c :: r => decimal_digit_of (digit_value c) (uint_of_digits r)
  end.

(** A further fact of the character database: the value of a decimal digit
    lies between 0 and 9. *)
Definition DigitValues (U : Unicode) : Prop :=
  forall c d, ch_todecimal c = Some d -> 0 <= d <= 9.

(** A string of spaces only, and a string without a space. *)
Definition blank {U : Unicode} (s : str) : Prop := forallb ch_isspace s = true.

Definition no_space {U : Unicode} (s : str) : Prop :=
  forallb (fun c => negb (ch_isspace c)) s = true.

(* ===================================================================== *)
(** ** The connection to the spreadsheet (lines 23 to 50) *)
(* ===================================================================== *)

(** A value of a secrets section or of a JSON object: a string, or
    something that is no string. *)
Inductive value : Type :=
| VStr (s : str)
| VOther.

(** A [dict] with string keys, in insertion order. *)
Definition dict := list (str * value).

(** What [st.secrets[...]] or [json.loads] gives: something [dict(...)]
    and the subscript work on, with its entries, or something on which
    they raise. *)
Inductive document : Type :=
| DObject (d : dict)
| DOther.

(** [d[k]]: [None] stands for the KeyError. *)
Fixpoint lookup (k : str) (d : dict) : option value :=
  match d with
  | [] => None
  | (k', v) :: r => if str_eqb k' k then Some v else lookup k r
  end.

(** [d[k] = v]: the value of a key that is there is replaced where it is,
    and a new key goes to the end. *)
Fixpoint store (k : str) (v : value) (d : dict) : dict :=
  match d with
  | [] => [(k, v)]
  | (k', v') :: r =>
      if str_eqb k' k then (k, v) :: r else (k', v') :: store k v r
  end.

Definition backslash : N := 92%N.
Definition letter_n : N := 110%N.

(** [s.replace("\\n", "\n")]: from left to right, every backslash followed
    by the letter n becomes a line feed. *)
Fixpoint unescape_newlines (s : str) : str :=
  match s with
  | [] => []
  | c :: r =>
      match r with
      | c' :: r' =>
          if (c =? backslash)%N && (c' =? letter_n)%N
          then newline :: unescape_newlines r'
          else c :: unescape_newlines r
      | [] => [c]
      end
  end.

(** A backslash followed by the letter n, somewhere in the string. *)
Fixpoint has_escaped_newline (s : str) : bool :=
  match s with
  | [] => false
  | c :: r =>
      match r with
      | c' :: _ =>
          ((c =? backslash)%N && (c' =? letter_n)%N) || has_escaped_newline r
      | [] => false
      end
  end.

(** What [st.secrets] has under GCP_SERVICE_ACCOUNT: the secrets cannot
    be read at all (the test [in st.secrets] raises), or they have no such
    entry, or they have one. *)
Inductive secrets_entry : Type :=
| SecretsUnreadable
| NoEntry
| Entry (doc : document).

(** What the function reads and calls: the secrets, the environment
    variable (after [load_dotenv()]), the JSON reader, and the two calls
    that turn the credentials into a client.  [None] from a call stands
    for an exception raised by it. *)
Record Config (Client : Type) := {
  secrets_gcp : secrets_entry;
  getenv_gcp_json : option str;
  json_loads : str -> option document;
  authorize : dict -> option Client
}.
Arguments secrets_gcp {Client} _.
Arguments getenv_gcp_json {Client} _.
Arguments json_loads {Client} _ _.
Arguments authorize {Client} _ _.

(** The exceptions the [try] of the function catches. *)
Inductive connect_exn : Type :=
| SecretsError       (* the secrets cannot be read *)
| NotAMapping        (* dict(...) of a secret that is no section *)
| JSONDecodeError    (* json.loads *)
| NotSubscriptable   (* creds_dict["private_key"] on something that is no object *)
| KeyError           (* no private_key *)
| NoReplace          (* .replace on a value that is no string *)
| Refused.           (* from_json_keyfile_dict or gspread.authorize *)

(** The two error lines of the function. *)
Inductive connect_msg : Type :=
| ErrNoGcpCredentials
| ErrFailedToConnect (e : connect_exn).

(** The client, or None, and what is shown. *)
Definition get_gsheet_client {Client : Type} (cfg : Config Client)
  : option Client * list connect_msg :=
  let failed (e : connect_exn) : option Client * list connect_msg :=
    (None, [ErrFailedToConnect e]) in
  let connect (creds_dict : dict) :=
    match lookup (u "private_key") creds_dict with
    | None => failed KeyError
    | Some VOther => failed NoReplace
    | Some (VStr key) =>
        let creds_dict :=
          store (u "private_key") (VStr (unescape_newlines key)) creds_dict in
        match authorize cfg creds_dict with
        | Some client => (Some client, [])
        | None => failed Refused
        end
    end in
  match secrets_gcp cfg with
  | SecretsUnreadable => failed SecretsError
  | Entry (DObject d) => connect d
  | Entry DOther => failed NotAMapping
  | NoEntry =>
      match getenv_gcp_json cfg with
      | None | Some [] => (None, [ErrNoGcpCredentials])
      | Some creds_json =>
          match json_loads cfg creds_json with
          | None => failed JSONDecodeError
          | Some (DObject d) => connect d
          | Some DOther => failed NotSubscriptable
          end
      end
  end.

(** The credentials the function works on, when it finds an object. *)
Definition found_credentials {Client : Type} (cfg : Config Client)
  : option dict :=
  match secrets_gcp cfg with
  | SecretsUnreadable => None
  | Entry (DObject d) => Some d
  | Entry DOther => None
  | NoEntry =>
      match getenv_gcp_json cfg with
      | None | Some [] => None
      | Some creds_json =>
          match json_loads cfg creds_json with
          | Some (DObject d) => Some d
          | _ => None
          end
      end
  end.

(** Example data: a secrets section with an escaped line feed in its key,
    a setting that has it and authorizes everything, and one that has the
    same section and an environment variable as well. *)
Definition service_account : dict :=
  [ (u "type", VStr (u "service_account"));
    (u "private_key", VStr (u "-----BEGIN-----\nMIIE"));
    (u "client_email", VStr (u "bank@example.org")) ].

Definition with_secrets : Config dict :=
  {| secrets_gcp := Entry (DObject service_account);
     getenv_gcp_json := None;
     json_loads := fun _ => None;
     authorize := fun d => Some d |}.

Definition with_secrets_and_env : Config dict :=
  {| secrets_gcp := Entry (DObject service_account);
     getenv_gcp_json := Some (u "{}");
     json_loads := fun _ => Some (DObject []);
     authorize := fun d => Some d |}.

(* ===================================================================== *)
(** * Theorems *)
(* ===================================================================== *)

(** ** Strings and the character database *)

Lemma str_eqb_eq (a b : str) : str_eqb a b = true <-> a = b.
Proof.
  revert b; induction a as [|x a IH]; intros [|y b]; simpl; try easy.
  rewrite andb_true_iff, N.eqb_eq, IH. split.
  - intros [-> ->]; reflexivity.
  - intros H; inversion H; auto.
Qed.

Lemma str_eqb_refl (a : str) : str_eqb a a = true.
Proof. apply str_eqb_eq; reflexivity. Qed.

Lemma str_eqb_neq (a b : str) : str_eqb a b = false <-> a <> b.
Proof.
  rewrite <- str_eqb_eq. destruct (str_eqb a b); split; congruence.
Qed.

Ltac range_cases :=
  repeat match goal with
         | |- context [(?a <=? ?b)%N] => destruct (N.leb_spec a b)
         | |- context [(?a =? ?b)%N] => destruct (N.eqb_spec a b)
         | |- context [(?a <? ?b)%N] => destruct (N.ltb_spec a b)
         end.

Lemma latin1_laws : UnicodeLaws latin1.
Proof.
  constructor; simpl.
  - intros c Hc. unfold latin1_isdigit, in_range.
    range_cases; simpl; try reflexivity; lia.
  - intros c Hc. unfold latin1_todecimal, in_range. reflexivity.
  - intros c d. unfold latin1_todecimal, latin1_isdigit.
    destruct (in_range 48 57 c); [reflexivity | discriminate].
  - intros c. unfold latin1_isdigit, latin1_isspace, in_range.
    range_cases; simpl; try reflexivity; try discriminate; lia.
Qed.

Example int_42 : @int latin1 (u "42") = Ok 42.
Proof. reflexivity. Qed.

Example int_signed_grouped : @int latin1 (u " -1_000 ") = Ok (-1000).
Proof. reflexivity. Qed.

Example int_double_underscore : @int latin1 (u "1__0") = Raise ValueError.
Proof. reflexivity. Qed.

Example str_of_int_1805 : str_of_int 1805 = u "1805".
Proof. reflexivity. Qed.

Example split_names :
  @split latin1 (u "  ann  mary lee ") = [u "ann"; u "mary"; u "lee"].
Proof. reflexivity. Qed.

Example capitalize_sharp_s : @capitalize latin1 [223; 65]%N = u "Ssa".
Proof. reflexivity. Qed.

(** ** The age validator *)

Section IntOfDigits.
Context {U : Unicode}.
Hypothesis L : UnicodeLaws U.

(** A digit character is read by [int] as its decimal value, if it has
    one, and is invalid otherwise. *)
Lemma tok_of_digit (c : N) :
  ch_isdigit c = true ->
  tok_of c = match ch_todecimal c with Some d => TDigit d | None => TBad end.
Proof.
  intros Hd. unfold tok_of.
  destruct (N.ltb_spec c 127) as [Hc|Hc].
  - assert (Hc' : (c < 128)%N) by lia.
    rewrite (ascii_isdigit U L c Hc') in Hd.
    rewrite (ascii_todecimal U L c Hc'). unfold in_range.
    rewrite Hd. apply andb_prop in Hd. destruct Hd as [H1 H2].
    apply N.leb_le in H1, H2.
    range_cases; simpl; try reflexivity; lia.
  - rewrite (digit_not_space U L c Hd). reflexivity.
Qed.

Lemma int_digits_digits (s : str) : forall acc,
  forallb ch_isdigit s = true ->
  int_digits acc (map tok_of s) =
    if forallb is_decimal s
    then Some (fold_left (fun a c => 10 * a + digit_value c) s acc)
    else None.
Proof.
  induction s as [|c s IH]; intros acc Hs; simpl in *.
  - reflexivity.
  - apply andb_prop in Hs. destruct Hs as [Hc Hs].
    rewrite (tok_of_digit c Hc). unfold is_decimal at 1, digit_value at 2.
    destruct (ch_todecimal c) as [d|]; simpl.
    + apply IH, Hs.
    + reflexivity.
Qed.

Lemma int_literal_digits (s : str) :
  isdigit s = true ->
  int_literal s = if forallb is_decimal s then Some (number_of s) else None.
Proof.
  unfold isdigit. destruct s as [|c s]; [discriminate|]. simpl.
  intros Hs. apply andb_prop in Hs. destruct Hs as [Hc Hs].
  unfold int_literal, number_of. simpl.
  rewrite (tok_of_digit c Hc). unfold is_decimal at 1, digit_value at 2.
  destruct (ch_todecimal c) as [d|]; simpl; [|reflexivity].
  rewrite (int_digits_digits s d Hs).
  replace (0 + d) with d by lia.
  destruct (forallb is_decimal s); reflexivity.
Qed.

(** The digits [int] counts in a string of decimal digits are its
    characters. *)
Lemma int_str_digits_digits (s : str) :
  forallb ch_isdigit s = true -> forallb is_decimal s = true ->
  int_str_digits s = len s.
Proof.
  unfold int_str_digits, len. intros Hd Hdec. f_equal.
  induction s as [|c s IH]; [reflexivity|].
  cbn [forallb] in Hd, Hdec.
  apply andb_prop in Hd. destruct Hd as [Hc Hd].
  apply andb_prop in Hdec. destruct Hdec as [Hcd Hdec].
  cbn [map]. rewrite (tok_of_digit c Hc).
  unfold is_decimal in Hcd.
  destruct (ch_todecimal c) as [d|]; [|discriminate].
  cbn [filter is_tdigit List.length]. rewrite (IH Hd Hdec). reflexivity.
Qed.

(** [int] of a digit string: it raises when a digit is no decimal digit
    and when there are more digits than the limit, and gives the number
    written otherwise. *)
Lemma int_digit_string (s : str) :
  isdigit s = true ->
  int s = if forallb is_decimal s
          then if int_max_str_digits <? len s
               then Raise ValueError
               else Ok (number_of s)
          else Raise ValueError.
Proof.
  intros Hd. unfold int. rewrite (int_literal_digits s Hd).
  destruct (forallb is_decimal s) eqn:Hdec; [|reflexivity].
  rewrite int_str_digits_digits; [reflexivity | | exact Hdec].
  unfold isdigit in Hd. apply andb_prop in Hd. apply Hd.
Qed.

Lemma decimal_forallb (s : str) :
  forallb is_decimal s = true <-> Forall decimal_digit s.
Proof.
  rewrite forallb_forall, Forall_forall. unfold is_decimal, decimal_digit.
  split; intros H c Hc; specialize (H c Hc).
  - destruct (ch_todecimal c) as [d|]; [eauto | discriminate].
  - destruct H as [d ->]. reflexivity.
Qed.

Lemma decimal_digits_isdigit (s : str) :
  Forall decimal_digit s -> forallb ch_isdigit s = true.
Proof.
  intros H. apply forallb_forall. rewrite Forall_forall in H.
  intros c Hc. destruct (H c Hc) as [d Hd].
  exact (decimal_isdigit U L c d Hd).
Qed.

End IntOfDigits.

(** The age validator accepts a raw age string exactly when it is a pure
    digit string (non-empty, decimal digits only) of no more characters
    than the limit of [int], and the number it writes lies between 18 and
    65, both included. *)
Lemma age_valid_iff {U : Unicode} (L : UnicodeLaws U) (a : str) :
  age_valid a = Ok true <->
  pure_digit_string a /\ len a <= int_max_str_digits /\
  18 <= number_of a <= 65.
Proof.
  unfold age_valid, pure_digit_string.
  destruct a as [|c a].
  { simpl. split; [discriminate | intros [[H _] _]; congruence]. }
  cbn [truthy].
  destruct (isdigit (c :: a)) eqn:Hd.
  - rewrite (int_digit_string L _ Hd).
    destruct (forallb is_decimal (c :: a)) eqn:Hdec.
    + apply decimal_forallb in Hdec.
      destruct (Z.ltb_spec int_max_str_digits (len (c :: a))) as [Hlen|Hlen];
        cbn [rbind].
      * split; [discriminate | intros [_ [H _]]; lia].
      * split.
        -- intros H. inversion H as [H'].
           apply andb_prop in H'. destruct H' as [H1 H2].
           apply Z.leb_le in H1, H2.
           split; [split; [congruence | exact Hdec]|].
           split; [exact Hlen|]. split; assumption.
        -- intros [_ [_ [H1 H2]]]. apply Z.leb_le in H1, H2.
           rewrite H1, H2. reflexivity.
    + cbn [rbind]. split; [discriminate|].
      intros [[_ H] _]. apply decimal_forallb in H. congruence.
  - split; [discriminate|].
    intros [[_ H] _]. apply (decimal_digits_isdigit L) in H.
    unfold isdigit in Hd. cbn [truthy] in Hd. simpl in Hd, H. congruence.
Qed.

Lemma age_valid_iff_witness :
  UnicodeLaws latin1 /\
  (@age_valid latin1 (u "42") = Ok true <->
   @pure_digit_string latin1 (u "42") /\
   len (u "42") <= int_max_str_digits /\
   18 <= @number_of latin1 (u "42") <= 65).
Proof.
  split; [exact latin1_laws | exact (age_valid_iff latin1_laws (u "42"))].
Defined.

(** C3. The age validator does not accept every pure digit string whose
    number lies between 18 and 65.  On 4299 zeros followed by [18], a pure
    digit string of 4301 characters that writes the number 18,
    [age.isdigit()] is true and [int(age)] raises ValueError, because the
    literal has more digits than the limit of [int]: the validator raises
    instead of accepting.  With one zero less the age is accepted. *)
Theorem age_valid_raises_on_long_digit_string :
  let a := repeat 48%N 4299%nat ++ u "18" in
  @pure_digit_string latin1 a /\ @number_of latin1 a = 18 /\
  len a = 4301 /\
  @isdigit latin1 a = true /\
  @age_valid latin1 a = Raise ValueError /\
  (forall name blood_group contact location,
     @validate latin1 name a blood_group contact location =
     Raise ValueError) /\
  @age_valid latin1 (repeat 48%N 4298%nat ++ u "18") = Ok true.
Proof.
  cbv zeta.
  assert (Hage : @age_valid latin1 (repeat 48%N 4299%nat ++ u "18") =
                 Raise ValueError) by (vm_compute; reflexivity).
  split; [split|].
  - intros H.
    apply (f_equal (fun l : str => match l with [] => false | _ => true end))
      in H.
    vm_compute in H. discriminate.
  - apply (proj1 (@decimal_forallb latin1 _)). vm_compute. reflexivity.
  - split; [vm_compute; reflexivity|].
    split; [vm_compute; reflexivity|].
    split; [vm_compute; reflexivity|].
    split; [exact Hage|].
    split; [|vm_compute; reflexivity].
    intros name blood_group contact location.
    unfold validate. rewrite Hage. reflexivity.
Qed.

Example age_valid_18 : @age_valid latin1 (u "18") = Ok true.
Proof. reflexivity. Qed.
Example age_valid_65 : @age_valid latin1 (u "65") = Ok true.
Proof. reflexivity. Qed.
Example age_valid_17 : @age_valid latin1 (u "17") = Ok false.
Proof. reflexivity. Qed.
Example age_valid_66 : @age_valid latin1 (u "66") = Ok false.
Proof. reflexivity. Qed.
Example age_valid_leading_zero : @age_valid latin1 (u "018") = Ok true.
Proof. reflexivity. Qed.
Example age_valid_signed : @age_valid latin1 (u "+18") = Ok false.
Proof. reflexivity. Qed.

(** ** Validation and exceptions *)

(** C4. The validation step does raise on some input: for the age [²]
    (superscript two, code point 178) [age.isdigit()] is true and
    [int(age)] raises ValueError, whatever the other fields are. *)
Theorem validate_raises_on_superscript_two :
  @age_valid latin1 [178%N] = Raise ValueError /\
  forall name blood_group contact location,
    @validate latin1 name [178%N] blood_group contact location = Raise ValueError.
Proof. split; reflexivity. Qed.

(** The other four validators are total functions to [bool]; of the age
    validator only this remains: it ends normally on every string whose
    digits are all decimal digits and which has no more characters than
    the limit of [int]. *)
Lemma age_valid_total_on_decimals {U : Unicode} (L : UnicodeLaws U) (a : str) :
  (forall c, In c a -> ch_isdigit c = true -> decimal_digit c) ->
  len a <= int_max_str_digits ->
  exists b, age_valid a = Ok b.
Proof.
  intros H Hlen. unfold age_valid.
  destruct (truthy a); [|eauto].
  destruct (isdigit a) eqn:Hd; [|eauto].
  rewrite (int_digit_string L _ Hd).
  assert (Hdec : forallb is_decimal a = true).
  { apply decimal_forallb, Forall_forall. intros c Hc. apply H; [exact Hc|].
    unfold isdigit in Hd. apply andb_prop in Hd. destruct Hd as [_ Hd].
    rewrite forallb_forall in Hd. auto. }
  rewrite Hdec.
  destruct (Z.ltb_spec int_max_str_digits (len a)) as [Hgt|_]; [lia|].
  cbn [rbind]. eauto.
Qed.

(** ** Reading the donor table *)

Lemma width_donor_sheet (g : Grid) : donor_sheet g -> (width g <= 5)%nat.
Proof.
  induction 1 as [|r g Hr _ IH]; [simpl; lia|].
  unfold width in *. cbn [fold_right]. rewrite Hr. lia.
Qed.

(** On a donor table [get_all_values] has nothing to pad. *)
Lemma fill_gaps_donor_sheet (g : Grid) : donor_sheet g -> fill_gaps g = g.
Proof.
  intros Hg. unfold fill_gaps.
  pose proof (width_donor_sheet g Hg) as Hw.
  transitivity (map (fun r : Row => r) g); [|apply map_id].
  apply map_ext_in.
  intros r Hr. cbv beta. unfold donor_sheet in Hg. rewrite Forall_forall in Hg.
  pose proof (Hg r Hr) as Hlen. unfold Row, str in *. rewrite Hlen.
  replace (width g - 5)%nat with 0%nat by lia.
  apply app_nil_r.
Qed.

(** The record a row of five cells stands for. *)
Lemma frame_of_donor_sheet (rows : Grid) :
  donor_sheet rows ->
  exists df, frame_of rows = Ok df /\ map cells df = rows.
Proof.
  induction 1 as [|r rows Hr _ [df [IH1 IH2]]]; simpl.
  - exists []. split; reflexivity.
  - destruct r as [|a [|b [|c [|d [|e [|x r]]]]]]; try discriminate.
    simpl. rewrite IH1. simpl. eexists. split; [reflexivity|].
    simpl. rewrite IH2. reflexivity.
Qed.

Lemma frame_of_cells (df : DataFrame) : frame_of (map cells df) = Ok df.
Proof.
  induction df as [|d df IH]; simpl; [reflexivity|].
  rewrite IH. destruct d; reflexivity.
Qed.

Lemma frame_of_inv (rows : Grid) (df : DataFrame) :
  frame_of rows = Ok df -> rows = map cells df.
Proof.
  revert df; induction rows as [|r rows IH]; simpl; intros df H.
  - inversion H. reflexivity.
  - destruct r as [|a [|b [|c [|d [|e [|x r]]]]]]; try discriminate.
    simpl in H. destruct (frame_of rows) as [ds|]; [|discriminate].
    inversion H. simpl. rewrite <- (IH ds eq_refl). reflexivity.
Qed.

(** C6. Reading all donors: without a client (no sheet handle), or with a
    sheet of at most the header row, the result is the empty frame and
    nothing is raised; otherwise it is the rows under the header, in order,
    as donor records.  The world is left as it was. *)
Theorem get_donors_reads_rows (w : World) :
  (book w = None -> get_donors w = (Ok [], w)) /\
  (forall b, book w = Some b -> (List.length (sheet b) <= 1)%nat ->
     get_donors w = (Ok [], w)) /\
  (forall b header rows, book w = Some b -> sheet b = header :: rows ->
     donor_sheet (sheet b) ->
     exists df, get_donors w = (Ok df, w) /\ map cells df = rows).
Proof.
  unfold get_donors. repeat split.
  - intros ->. reflexivity.
  - intros b -> Hlen. unfold get_all_values, fill_gaps.
    rewrite length_map.
    assert (Hlt : (1 <? List.length (sheet b))%nat = false)
      by (apply Nat.ltb_ge; exact Hlen).
    unfold Grid, Row, str in *. rewrite Hlt. reflexivity.
  - intros b header rows -> Hs Hg.
    unfold get_all_values. rewrite (fill_gaps_donor_sheet _ Hg). rewrite Hs.
    rewrite Hs in Hg. inversion Hg as [|? ? _ Hrows]; subst.
    destruct (frame_of_donor_sheet rows Hrows) as [df [Hdf Hcells]].
    simpl tl. destruct rows as [|r rows].
    + exists []. simpl. split; reflexivity.
    + exists df. cbn [List.length]. simpl Nat.ltb. rewrite Hdf. split; auto.
Qed.

(** ** The export filter *)

Lemma existsb_str_eqb (x : str) (l : list str) :
  existsb (str_eqb x) l = true <-> In x l.
Proof.
  rewrite existsb_exists. split.
  - intros [y [Hy Heq]]. apply str_eqb_eq in Heq. subst. exact Hy.
  - intros H. exists x. split; [exact H | apply str_eqb_refl].
Qed.

Lemma filter_twice {A} (f g : A -> bool) (l : list A) :
  filter f (filter g l) = filter (fun x => g x && f x) l.
Proof.
  induction l as [|x l IH]; simpl; [reflexivity|].
  destruct (g x); simpl; [destruct (f x)|]; rewrite IH; reflexivity.
Qed.

Lemma filter_all {A} (l : list A) : l = filter (fun _ => true) l.
Proof. induction l as [|x l IH]; simpl; congruence. Qed.

(** C7. The export filter keeps, in their order, exactly the rows whose
    blood group is the selected one (unless the selection is [All]) and
    whose location is among the selected ones (unless none is selected or
    [All Locations] is among them); on the three donors of the
    specification it yields A and C for O+, B and C for Loc2, and C for
    both. *)
Theorem filtered_df_keeps_exactly :
  (forall df blood_group selected_locations,
     filtered_df df blood_group selected_locations =
     filter (requested blood_group selected_locations) df) /\
  (forall df blood_group selected_locations d,
     In d (filtered_df df blood_group selected_locations) <->
     In d df /\
     (blood_group <> u "All" -> col_blood_group d = blood_group) /\
     (selected_locations <> [] ->
      ~ In (u "All Locations") selected_locations ->
      In (col_location d) selected_locations)) /\
  (let mk (n g l : string) :=
     {| col_name := u n; col_age := u "30"; col_blood_group := u g;
        col_contact := u "9876543210"; col_location := u l |} in
   let A := mk "A"%string "O+"%string "Loc1"%string in
   let B := mk "B"%string "O-"%string "Loc2"%string in
   let C := mk "C"%string "O+"%string "Loc2"%string in
   filtered_df [A; B; C] (u "O+") [] = [A; C] /\
   filtered_df [A; B; C] (u "All") [u "Loc2"] = [B; C] /\
   filtered_df [A; B; C] (u "O+") [u "Loc2"] = [C]).
Proof.
  split; [|split].
  - intros df bg sel. unfold filtered_df, requested.
    destruct (str_eqb bg (u "All"));
    destruct (existsb (str_eqb (u "All Locations")) sel);
    destruct sel as [|l sel]; cbn [negb empty orb andb].
    all: rewrite ?filter_twice.
    all: first [ apply filter_all
               | apply filter_ext; intros d;
                 rewrite ?andb_true_r, ?orb_true_r, ?andb_true_r; reflexivity ].
  - intros df bg sel d. unfold filtered_df.
    destruct (str_eqb bg (u "All")) eqn:Hall;
      [apply str_eqb_eq in Hall | apply str_eqb_neq in Hall];
    destruct (existsb (str_eqb (u "All Locations")) sel) eqn:Hloc;
      try (apply existsb_str_eqb in Hloc);
    destruct sel as [|l sel]; cbn [negb empty];
      repeat rewrite filter_In; rewrite ?existsb_str_eqb, ?str_eqb_eq;
      try (assert (Hnot : ~ In (u "All Locations") (l :: sel))
             by (rewrite <- existsb_str_eqb; congruence));
      intuition congruence.
  - cbv zeta. repeat split; reflexivity.
Qed.

(** ** The donor list *)

Lemma mask_contact_long (x : str) :
  4 < len x -> mask_contact x = firstn (List.length x - 4) x ++ u "****".
Proof.
  intros H. unfold mask_contact. apply Z.ltb_lt in H. rewrite H. reflexivity.
Qed.

Lemma mask_contact_short (x : str) :
  len x <= 4 -> mask_contact x = u "****".
Proof.
  intros H. unfold mask_contact.
  destruct (Z.ltb_spec 4 (len x)); [lia | reflexivity].
Qed.

(** The mask gives the contact back exactly when the contact ends in four
    asterisks already. *)
Lemma mask_contact_fixed (x : str) :
  mask_contact x = x <-> exists p, x = p ++ u "****".
Proof.
  unfold mask_contact, len.
  destruct (Z.ltb_spec 4 (Z.of_nat (List.length x))) as [Hl|Hl].
  - split.
    + intros H. exists (firstn (List.length x - 4) x). symmetry. exact H.
    + intros [p ->]. rewrite length_app in *. simpl List.length in *.
      replace (List.length p + 4 - 4)%nat with (List.length p + 0)%nat by lia.
      rewrite firstn_app_2. simpl. rewrite app_nil_r. reflexivity.
  - split.
    + intros <-. exists []. reflexivity.
    + intros [p ->]. rewrite length_app in Hl. simpl List.length in Hl.
      destruct p; [reflexivity | simpl in Hl; lia].
Qed.

Lemma donor_list_shows (w : World) (df : DataFrame) :
  get_donors w = (Ok df, w) -> df <> [] ->
  donor_list w = (Ok (Some (map mask_row df)), w).
Proof.
  intros Hg Hne. unfold donor_list, bind. rewrite Hg.
  destruct df; [congruence | reflexivity].
Qed.

Lemma get_donors_world (w : World) : snd (get_donors w) = w.
Proof.
  unfold get_donors. destruct (book w); [|reflexivity].
  destruct (1 <? _)%nat; reflexivity.
Qed.

Lemma get_donors_table (w : World) : get_donors w = (table w, w).
Proof.
  unfold table. rewrite <- (get_donors_world w) at 3.
  destruct (get_donors w); reflexivity.
Qed.

(** C10, as the code has it.  Every contact in the donor list is the mask
    of the stored one: of a contact longer than four characters the last
    four are replaced by four asterisks and the others kept, and a contact
    of four characters or fewer is shown as four asterisks.  What is shown
    is the full contact only when the contact itself ends in four
    asterisks. *)
Theorem donor_list_masks_contacts :
  (forall w shown, fst (donor_list w) = Ok (Some shown) ->
     exists df, table w = Ok df /\ shown = map mask_row df) /\
  (forall d, col_contact (mask_row d) = mask_contact (col_contact d)) /\
  (forall x, 4 < len x ->
     mask_contact x = firstn (List.length x - 4) x ++ u "****") /\
  (forall x, len x <= 4 -> mask_contact x = u "****") /\
  (forall x, mask_contact x = x <-> exists p, x = p ++ u "****").
Proof.
  repeat split.
  - intros w shown. unfold donor_list, bind. rewrite get_donors_table.
    destruct (table w) as [df|e]; [|discriminate].
    destruct df as [|d df]; cbn; [discriminate|].
    intros H. inversion H. eauto.
  - apply mask_contact_long.
  - apply mask_contact_short.
  - apply mask_contact_fixed.
  - apply mask_contact_fixed.
Qed.

Lemma donor_list_masks_contacts_witness :
  let w := world_of [expected_headers;
                     cells (donor "Ann" "30" "O+" "9876543210" "Pune")] [] in
  let shown := [donor "Ann" "30" "O+" "987654****" "Pune"] in
  fst (donor_list w) = Ok (Some shown) /\
  (exists df, table w = Ok df /\ shown = map mask_row df) /\
  4 < len (u "9876543210") /\
  mask_contact (u "9876543210") = u "987654****" /\
  len (u "123") <= 4 /\
  mask_contact (u "123") = u "****".
Proof.
  cbv zeta. split; [reflexivity|]. split.
  - apply (proj1 donor_list_masks_contacts). reflexivity.
  - split; [reflexivity|]. split.
    + apply (proj1 (proj2 (proj2 donor_list_masks_contacts))). reflexivity.
    + split; [discriminate|].
      apply (proj1 (proj2 (proj2 (proj2 donor_list_masks_contacts)))).
      discriminate.
Defined.

(** A stored contact of four asterisks is shown in full. *)
Lemma donor_list_shows_full_contact :
  let d := donor "Ann" "30" "O+" "****" "Pune" in
  let w := world_of [expected_headers; cells d] [] in
  table w = Ok [d] /\
  fst (donor_list w) = Ok (Some [d]) /\
  ~ (forall x, mask_contact x <> x).
Proof.
  cbv zeta. split; [reflexivity|]. split; [reflexivity|].
  intros H. apply (H (u "****")). reflexivity.
Qed.

(** ** The export and its reader *)

Section RoundTrip.
Variable os : Platform.

Lemma scan_plain (f : str) : forall fld row rest,
  existsb (special os) f = false ->
  scan os Plain fld row (f ++ rest) = scan os Plain (rev f ++ fld) row rest.
Proof.
  induction f as [|c f IH]; intros fld row rest Hf; [reflexivity|].
  simpl in Hf. apply orb_false_elim in Hf. destruct Hf as [Hc Hf].
  unfold special in Hc.
  apply orb_false_elim in Hc. destruct Hc as [Hc Hn].
  apply orb_false_elim in Hc. destruct Hc as [Hc Hq].
  assert (Hnl : (c =? newline)%N = false /\
                crlf os && (c =? creturn)%N = false).
  { destruct os; cbn [linesep existsb crlf andb] in *.
    - rewrite orb_false_r in Hn. auto.
    - apply orb_false_elim in Hn. destruct Hn as [Hr Hn].
      rewrite orb_false_r in Hn. auto. }
  destruct Hnl as [Hnl Hcr].
  cbn [app scan]. rewrite Hq, Hc, Hnl, Hcr.
  rewrite (IH (c :: fld) row rest Hf).
  cbn [rev]. rewrite <- app_assoc. reflexivity.
Qed.

Lemma scan_quoted (f : str) : forall fld row rest,
  scan os Quoted fld row (double_quotes f ++ dquote :: rest) =
  scan os Closed (rev f ++ fld) row rest.
Proof.
  induction f as [|c f IH]; intros fld row rest.
  - reflexivity.
  - cbn [double_quotes]. destruct (c =? dquote)%N eqn:Hc.
    + apply N.eqb_eq in Hc. subst c.
      cbn [app scan]. change (dquote =? dquote)%N with true. cbv iota.
      rewrite IH. cbn [rev]. rewrite <- app_assoc. reflexivity.
    + cbn [app scan]. rewrite Hc. rewrite IH.
      cbn [rev]. rewrite <- app_assoc. reflexivity.
Qed.

(** A written field is read up to the comma or the line ending that
    follows it, in the state [Plain] or [Closed], with the field read. *)
Lemma scan_field (f : str) (row : Row) (rest : str) :
  exists st, (st = Plain \/ st = Closed) /\
    scan os Plain [] row (csv_field os f ++ rest) = scan os st (rev f) row rest.
Proof.
  unfold csv_field. destruct (existsb (special os) f) eqn:Hf.
  - exists Closed. split; [auto|].
    cbn [app scan]. change (dquote =? dquote)%N with true. cbv iota.
    rewrite <- app_assoc. cbn [app].
    rewrite scan_quoted. rewrite app_nil_r. reflexivity.
  - exists Plain. split; [auto|].
    rewrite (scan_plain f [] row rest Hf). rewrite app_nil_r. reflexivity.
Qed.

Lemma scan_comma (st : scan_state) (fld : str) (row : Row) (rest : str) :
  st = Plain \/ st = Closed ->
  scan os st fld row (comma :: rest) = scan os Plain [] (rev fld :: row) rest.
Proof. intros [-> | ->]; reflexivity. Qed.

Lemma scan_linesep (st : scan_state) (fld : str) (row : Row) (rest : str) :
  st = Plain \/ st = Closed ->
  scan os st fld row (linesep os ++ rest) =
  option_map (cons (rev (rev fld :: row))) (scan os Plain [] [] rest).
Proof. intros [-> | ->]; destruct os; reflexivity. Qed.

(** A written line is read back as its fields. *)
Lemma scan_line (fs : Row) : forall row rest,
  fs <> [] ->
  scan os Plain [] row (csv_fields os fs ++ rest) =
  option_map (cons (rev row ++ fs)) (scan os Plain [] [] rest).
Proof.
  induction fs as [|f fs IH]; intros row rest Hne; [congruence|].
  destruct fs as [|g fs].
  - cbn [csv_fields]. rewrite <- app_assoc.
    destruct (scan_field f row (linesep os ++ rest)) as [st [Hst ->]].
    rewrite (scan_linesep st _ _ _ Hst). rewrite rev_involutive.
    cbn [rev]. reflexivity.
  - change (csv_fields os (f :: g :: fs))
      with (csv_field os f ++ comma :: csv_fields os (g :: fs)).
    rewrite <- app_assoc. cbn [app].
    destruct (scan_field f row (comma :: csv_fields os (g :: fs) ++ rest))
      as [st [Hst ->]].
    rewrite (scan_comma st _ _ _ Hst). rewrite rev_involutive.
    rewrite IH by discriminate.
    cbn [rev]. rewrite <- app_assoc. reflexivity.
Qed.

Lemma scan_lines (rows : Grid) :
  Forall (fun fs => fs <> []) rows ->
  scan os Plain [] [] (List.concat (map (csv_fields os) rows)) = Some rows.
Proof.
  induction 1 as [|fs rows Hfs _ IH]; [reflexivity|].
  cbn [map List.concat]. rewrite scan_line by exact Hfs.
  rewrite IH. reflexivity.
Qed.

End RoundTrip.

Lemma row_eqb_refl (r : Row) : row_eqb r r = true.
Proof.
  induction r as [|x r IH]; [reflexivity|].
  simpl. rewrite str_eqb_refl. exact IH.
Qed.

Example to_csv_one_donor :
  to_csv Posix [donor "Ann Lee" "30" "O+" "9876543210" "Pune"] =
  u "name,age,blood_group,contact,location" ++ [newline]
  ++ u "Ann Lee,30,O+,9876543210,Pune" ++ [newline].
Proof. reflexivity. Qed.

Example to_csv_one_donor_windows :
  to_csv Windows [donor "Ann Lee" "30" "O+" "9876543210" "Pune"] =
  u "name,age,blood_group,contact,location" ++ [creturn; newline]
  ++ u "Ann Lee,30,O+,9876543210,Pune" ++ [creturn; newline].
Proof. reflexivity. Qed.

Example csv_field_quoted :
  csv_field Posix (u "Lee, Ann") = [dquote] ++ u "Lee, Ann" ++ [dquote].
Proof. reflexivity. Qed.

(** C8. Writing a donor set to the delimited export format and reading
    the text back gives the same records, field for field; this holds for
    every frame, so in particular for the filtered set of an export
    request whose records satisfy the donor data model. *)
Theorem export_round_trip :
  (forall (os : Platform) (df : DataFrame),
     read_csv os (to_csv os df) = Some df) /\
  (forall (E : Env) df blood_group selected_locations,
     read_csv (platform E) (csv_data E df blood_group selected_locations) =
     Some (filtered_df df blood_group selected_locations)).
Proof.
  assert (H : forall os (df : DataFrame), read_csv os (to_csv os df) = Some df).
  { intros os df. unfold read_csv, parse_csv, to_csv.
    rewrite scan_line by discriminate.
    rewrite <- map_map.
    rewrite scan_lines.
    - cbn [option_map rev app]. rewrite row_eqb_refl.
      rewrite frame_of_cells. reflexivity.
    - apply Forall_forall. intros r Hr. apply in_map_iff in Hr.
      destruct Hr as [d [<- _]]. discriminate. }
  split; [exact H|]. intros. apply H.
Qed.

(** ** Writing to the sheets *)

Lemma length_fill_gaps (g : Grid) : List.length (fill_gaps g) = List.length g.
Proof. unfold fill_gaps. apply length_map. Qed.

(** Writing to the first free row appends the row. *)
Lemma write_row_append (vals : Row) (g : Grid) :
  write_row (List.length g) vals g = g ++ [vals].
Proof. induction g as [|r g IH]; simpl; [reflexivity | rewrite IH; reflexivity]. Qed.

Lemma update_next_row (vals : Row) (g : Grid) :
  update (List.length (get_all_values g) + 1) vals g = g ++ [vals].
Proof.
  unfold update, get_all_values. rewrite length_fill_gaps.
  replace (List.length g + 1 - 1)%nat with (List.length g) by lia.
  apply write_row_append.
Qed.

(** Writing five cells over a row of a donor table replaces the row. *)
Lemma write_row_cells (i : nat) (d : Donor) (df : DataFrame) :
  (i < List.length df)%nat ->
  write_row i (cells d) (map cells df) =
  map cells (firstn i df ++ d :: skipn (S i) df).
Proof.
  revert df; induction i as [|i IH]; intros [|x df] Hi; simpl in Hi; try lia.
  - reflexivity.
  - cbn [write_row map firstn skipn app]. rewrite IH by lia. reflexivity.
Qed.

Lemma remove_row_cells (i : nat) (df : DataFrame) :
  remove_row i (map cells df) = map cells (firstn i df ++ skipn (S i) df).
Proof.
  revert i; induction df as [|x df IH]; intros [|i]; try reflexivity.
  cbn [remove_row map firstn skipn app]. rewrite IH. reflexivity.
Qed.

(** The sheet of a donor table and the frame read from it. *)
Lemma donor_sheet_table (w : World) (b : Workbook) (df : DataFrame) :
  book w = Some b -> donor_sheet (sheet b) -> table w = Ok df ->
  sheet b = [] /\ df = [] \/
  exists header, List.length header = 5%nat /\ sheet b = header :: map cells df.
Proof.
  intros Hb Hg Ht. unfold table, get_donors in Ht. rewrite Hb in Ht.
  unfold get_all_values in Ht. rewrite (fill_gaps_donor_sheet _ Hg) in Ht.
  destruct (sheet b) as [|h rows] eqn:Hs.
  - left. simpl in Ht. inversion Ht. auto.
  - right. exists h. inversion Hg as [|? ? Hh Hrows]; subst.
    split; [exact Hh|]. f_equal.
    destruct rows as [|r rows].
    + simpl in Ht. inversion Ht. reflexivity.
    + cbn [List.length tl] in Ht. simpl Nat.ltb in Ht. cbn [fst] in Ht.
      apply frame_of_inv. exact Ht.
Qed.

Lemma donor_sheet_cells (df : DataFrame) : donor_sheet (map cells df).
Proof.
  unfold donor_sheet. apply Forall_forall. intros r Hr.
  apply in_map_iff in Hr. destruct Hr as [d [<- _]]. reflexivity.
Qed.

Lemma table_of_donor_sheet (w : World) (b : Workbook) header (df : DataFrame) :
  book w = Some b -> List.length header = 5%nat ->
  sheet b = header :: map cells df ->
  table w = Ok df.
Proof.
  intros Hb Hh Hs. unfold table, get_donors. rewrite Hb.
  unfold get_all_values. rewrite fill_gaps_donor_sheet.
  - rewrite Hs. destruct df as [|d df]; [reflexivity|].
    cbn [map List.length tl]. simpl Nat.ltb. cbn [fst].
    change (cells d :: map cells df) with (map cells (d :: df)).
    apply frame_of_cells.
  - rewrite Hs. constructor; [exact Hh | apply donor_sheet_cells].
Qed.

(** ** Donor management *)

Section Manage.
Context {U : Unicode}.

Lemma manage_update_cases (p : positive) (apply : bool)
    (new_name new_age new_blood new_contact new_location : str) (w : World) :
  let w' := snd (manage_update p apply new_name new_age new_blood
                   new_contact new_location w) in
  book w' = book w \/
  exists b df donor a,
    book w = Some b /\ table w = Ok df /\
    nth_error df (Pos.to_nat p - 1) = Some donor /\
    apply = true /\
    truthy new_name = true /\ isdigit new_age = true /\
    truthy new_contact = true /\ truthy new_location = true /\
    (filter (same_donor new_name new_contact) df = [] \/
     lower (col_name donor) = lower new_name /\ col_contact donor = new_contact) /\
    int new_age = Ok a /\
    book w' = Some {| sheet := update (Pos.to_nat p + 1)
                        [new_name; str_of_int a; new_blood; new_contact; new_location]
                        (sheet b);
                      log_sheet := log_sheet b |} /\
    exists rest, page w' = page w ++ OkDonorUpdated :: rest.
Proof.
  cbv zeta. unfold manage_update, bind. rewrite get_donors_table.
  destruct (table w) as [df|e] eqn:Ht; [|left; reflexivity].
  destruct (negb (empty df) && (Pos.to_nat p <=? List.length df)%nat) eqn:Hg;
    [|left; reflexivity].
  unfold lift.
  destruct (nth_error df (Pos.to_nat p - 1)) as [donor|] eqn:Hn;
    [|left; reflexivity].
  destruct (index blood_groups (col_blood_group donor)) as [i|e] eqn:Hi;
    [|left; reflexivity].
  destruct apply; [|left; reflexivity].
  destruct (truthy new_name && isdigit new_age && truthy new_contact
            && truthy new_location) eqn:Hv; [|left; reflexivity].
  apply andb_prop in Hv. destruct Hv as [Hv Hv4].
  apply andb_prop in Hv. destruct Hv as [Hv Hv3].
  apply andb_prop in Hv. destruct Hv as [Hv1 Hv2].
  destruct (negb (empty (filter (same_donor new_name new_contact) df)) &&
            negb (str_eqb (lower (col_name donor)) (lower new_name) &&
                  str_eqb (col_contact donor) new_contact)) eqn:Hc;
    [left; reflexivity|].
  destruct (int new_age) as [a|e] eqn:Ha; [|left; reflexivity].
  unfold update_donor.
  destruct (book w) as [b|] eqn:Hb.
  - right. exists b, df, donor, a.
    repeat (split; [first [reflexivity | assumption]|]).
    split.
    { apply andb_false_iff in Hc. destruct Hc as [Hc|Hc].
      - left. apply negb_false_iff in Hc.
        destruct (filter _ df); [reflexivity | discriminate].
      - right. apply negb_false_iff in Hc. apply andb_prop in Hc.
        destruct Hc as [H1 H2]. apply str_eqb_eq in H1, H2. auto. }
    split; [reflexivity|].
    unfold set_sheet, say. rewrite Hb. cbn [option_map fst snd book page].
    rewrite get_donors_table.
    match goal with |- context [table ?w1] => destruct (table w1) end;
      cbn [snd book page set_manage_open]; split; eauto.
  - left. unfold say. cbn [fst snd book page].
    rewrite get_donors_table.
    match goal with |- context [table ?w1] => destruct (table w1) end;
      cbn [snd book page set_manage_open]; auto.
Qed.




End Manage.

(** ** Adding a donor *)

Section Add.
Context {U : Unicode}.

Lemma all_valid_fields name age blood_group contact location v :
  validate name age blood_group contact location = Ok v ->
  all_valid v = true ->
  v_name v = true /\ v_age v = true /\ v_contact v = true /\
  v_location v = true /\ exists a, int age = Ok a.
Proof.
  unfold validate. intros Hv Ha.
  destruct (age_valid age) as [av|e] eqn:Hage; [|discriminate].
  cbn [rbind] in Hv. inversion Hv; subst v; clear Hv.
  cbn [all_valid v_name v_age v_contact v_location] in *.
  apply andb_prop in Ha. destruct Ha as [Ha Hl].
  apply andb_prop in Ha. destruct Ha as [Ha Hc].
  apply andb_prop in Ha. destruct Ha as [Ha Hb].
  apply andb_prop in Ha. destruct Ha as [Hn Ha].
  subst av. repeat (split; [assumption|]).
  unfold age_valid in Hage.
  destruct (truthy age); [|discriminate].
  destruct (isdigit age); [|discriminate].
  destruct (int age) as [a|e]; [eauto | discriminate].
Qed.

(** A valid submission that collides with a row is turned down and
    changes nothing but the page. *)
Lemma add_donor_form_rejects name age blood_group contact location v w df :
  validate name age blood_group contact location = Ok v ->
  all_valid v = true ->
  table w = Ok df ->
  filter (same_donor (normal_name name) contact) df <> [] ->
  add_donor_form true name age blood_group contact location w =
  (Ok tt, {| book := book w; page := page w ++ [ErrDonorExists];
             outbox := outbox w; manage_open := manage_open w |}).
Proof.
  intros Hv Ha Ht Hf.
  destruct (all_valid_fields _ _ _ _ _ _ Hv Ha) as [H1 [H2 [H3 [H4 _]]]].
  unfold add_donor_form, bind, lift. rewrite Hv.
  rewrite H1, H2, H3, H4, Ha. cbn [negb andb when ret].
  rewrite !andb_false_r. cbn [when ret].
  rewrite get_donors_table, Ht.
  fold (normal_name name).
  destruct (filter (same_donor (normal_name name) contact) df);
    [congruence | reflexivity].
Qed.

(** A valid submission that collides with no row is written to the first
    free row. *)
Lemma add_donor_form_writes name age blood_group contact location v w b df :
  validate name age blood_group contact location = Ok v ->
  all_valid v = true ->
  book w = Some b ->
  table w = Ok df ->
  filter (same_donor (normal_name name) contact) df = [] ->
  exists a, int age = Ok a /\
  add_donor_form true name age blood_group contact location w =
  (Ok tt,
   {| book := Some {| sheet := sheet b ++
                        [[normal_name name; str_of_int a; blood_group; contact;
                          normal_location location]];
                      log_sheet := log_sheet b |};
      page := page w ++ [OkDonorAdded];
      outbox := outbox w; manage_open := manage_open w |}).
Proof.
  intros Hv Ha Hb Ht Hf.
  destruct (all_valid_fields _ _ _ _ _ _ Hv Ha) as [H1 [H2 [H3 [H4 [a Hint]]]]].
  exists a. split; [exact Hint|].
  unfold add_donor_form, bind, lift. rewrite Hv.
  rewrite H1, H2, H3, H4, Ha. cbn [negb andb when ret].
  rewrite !andb_false_r. cbn [when ret].
  rewrite get_donors_table, Ht.
  fold (normal_name name). fold (normal_location location).
  rewrite Hf. cbn [empty negb].
  unfold the_sheet. rewrite Hb. unfold ret. rewrite Hint.
  rewrite Hb. rewrite update_next_row.
  unfold set_sheet, say. rewrite Hb. reflexivity.
Qed.

(** Whatever is submitted, the add path leaves the workbook alone or
    appends one row that collides with no row of the table. *)
Lemma add_donor_form_cases submitted name age blood_group contact location w :
  let w' := snd (add_donor_form submitted name age blood_group contact
                   location w) in
  book w' = book w \/
  exists b df a,
    book w = Some b /\ table w = Ok df /\
    filter (same_donor (normal_name name) contact) df = [] /\
    book w' = Some {| sheet := sheet b ++
                        [[normal_name name; str_of_int a; blood_group; contact;
                          normal_location location]];
                      log_sheet := log_sheet b |}.
Proof.
  cbv zeta.
  destruct (validate name age blood_group contact location) as [v|e] eqn:Hv.
  2:{ left. unfold add_donor_form, bind, lift. rewrite Hv. reflexivity. }
  destruct (submitted && all_valid v) eqn:Hs.
  - apply andb_prop in Hs. destruct Hs as [-> Ha].
    destruct (table w) as [df|e] eqn:Ht.
    + destruct (filter (same_donor (normal_name name) contact) df) eqn:Hf.
      * destruct (book w) as [b|] eqn:Hb.
        -- right.
           destruct (add_donor_form_writes _ _ _ _ _ _ _ _ _ Hv Ha Hb Ht Hf)
             as [a [_ ->]].
           exists b, df, a. repeat split; assumption.
        -- left. destruct (all_valid_fields _ _ _ _ _ _ Hv Ha)
             as [H1 [H2 [H3 [H4 _]]]].
           unfold add_donor_form, bind, lift. rewrite Hv.
           rewrite H1, H2, H3, H4, Ha. cbn [negb andb when ret].
           rewrite !andb_false_r. cbn [when ret].
           rewrite get_donors_table, Ht. fold (normal_name name).
           rewrite Hf. cbn [empty negb]. unfold the_sheet. rewrite Hb.
           cbn [snd]. congruence.
      * left. rewrite (add_donor_form_rejects _ _ _ _ _ _ _ _ Hv Ha Ht);
          [reflexivity | rewrite Hf; discriminate].
    + left. destruct (all_valid_fields _ _ _ _ _ _ Hv Ha)
        as [H1 [H2 [H3 [H4 _]]]].
      unfold add_donor_form, bind, lift. rewrite Hv.
      rewrite H1, H2, H3, H4, Ha. cbn [negb andb when ret].
      rewrite !andb_false_r. cbn [when ret].
      rewrite get_donors_table, Ht. reflexivity.
  - left. unfold add_donor_form, bind, lift. rewrite Hv, Hs.
    unfold when, say, ret.
    repeat match goal with
           | |- context [if ?c then _ else _] => destruct c
           end; reflexivity.
Qed.

End Add.

(** ** Deleting a donor *)

Lemma manage_delete_cases (p : positive) (confirm cancel : bool) (w : World) :
  let w' := snd (manage_delete p confirm cancel w) in
  book w' = book w \/
  exists b df,
    book w = Some b /\ table w = Ok df /\
    (Pos.to_nat p <= List.length df)%nat /\
    book w' = Some {| sheet := delete_rows (Pos.to_nat p + 1) (sheet b);
                      log_sheet := log_sheet b |}.
Proof.
  cbv zeta. unfold manage_delete, bind. rewrite get_donors_table.
  destruct (table w) as [df|e] eqn:Ht; [|left; reflexivity].
  destruct (negb (empty df) && (Pos.to_nat p <=? List.length df)%nat) eqn:Hg;
    [|left; reflexivity].
  apply andb_prop in Hg. destruct Hg as [_ Hg]. apply Nat.leb_le in Hg.
  unfold lift.
  destruct (nth_error df (Pos.to_nat p - 1)) as [donor|] eqn:Hn;
    [|left; reflexivity].
  unfold say at 1. cbn [fst snd].
  destruct confirm; cbn [when].
  - unfold bind, delete_donor. cbn [book].
    destruct (book w) as [b|] eqn:Hb.
    + right. exists b, df. repeat (split; [first [reflexivity|assumption]|]).
      unfold set_sheet, say. cbn [option_map fst snd book page].
      rewrite Hb. cbn [option_map].
      rewrite get_donors_table.
      match goal with |- context [table ?w1] => destruct (table w1) end;
        cbn [snd book set_manage_open];
        destruct cancel; reflexivity.
    + left. unfold say. cbn [fst snd book page].
      rewrite get_donors_table.
      match goal with |- context [table ?w1] => destruct (table w1) end;
        cbn [snd book set_manage_open];
        destruct cancel; cbn; congruence.
  - left. unfold ret. destruct cancel; cbn; reflexivity.
Qed.

(** ** Rows with pairwise different identities *)

Lemma nth_error_split_at {A} (l : list A) (i : nat) (x : A) :
  nth_error l i = Some x -> l = firstn i l ++ x :: skipn (S i) l.
Proof.
  revert i; induction l as [|y l IH]; intros [|i] H; simpl in H; try discriminate.
  - inversion H. reflexivity.
  - cbn [firstn skipn app]. f_equal. apply IH, H.
Qed.

Lemma NoDup_middle_swap {A} (l1 l2 : list A) (x y : A) :
  NoDup (l1 ++ x :: l2) ->
  (y = x \/ ~ In y (l1 ++ x :: l2)) ->
  NoDup (l1 ++ y :: l2).
Proof.
  intros Hnd [->|Hy]; [exact Hnd|].
  apply NoDup_remove in Hnd. destruct Hnd as [Hnd _].
  apply NoDup_Add with (a := y) (l := l1 ++ l2).
  - apply Add_app.
  - split; [exact Hnd|].
    intros Hin. apply Hy. apply in_app_or in Hin. apply in_or_app.
    destruct Hin; [left | right; right]; assumption.
Qed.

Section Unique.
Context {U : Unicode}.

Lemma same_donor_identity (name contact : str) (d : Donor) :
  same_donor name contact d = true <-> identity d = (lower name, contact).
Proof.
  unfold same_donor, identity.
  rewrite andb_true_iff, !str_eqb_eq. split.
  - intros [-> ->]. reflexivity.
  - intros H. inversion H. auto.
Qed.

(** No row found by the duplicate check means the identity is new. *)
Lemma no_same_donor (name contact : str) (df : DataFrame) :
  filter (same_donor name contact) df = [] ->
  ~ In (lower name, contact) (map identity df).
Proof.
  intros Hf Hin. apply in_map_iff in Hin. destruct Hin as [d [Hid Hd]].
  assert (Hin : In d (filter (same_donor name contact) df)).
  { apply filter_In. split; [exact Hd|]. apply same_donor_identity. exact Hid. }
  rewrite Hf in Hin. destruct Hin.
Qed.

(** The table read depends on the workbook only. *)
Lemma table_book (w w' : World) : book w' = book w -> table w' = table w.
Proof.
  intros Hb. unfold table, get_donors. rewrite Hb.
  destruct (book w); [|reflexivity].
  destruct (1 <? _)%nat; reflexivity.
Qed.

Lemma unique_table_book (w w' : World) :
  book w' = book w -> unique_table w -> unique_table w'.
Proof.
  intros Hb [Hs [df [Ht Hu]]]. split.
  - intros b Hb'. apply Hs. congruence.
  - exists df. split; [|exact Hu].
    rewrite (table_book w w' Hb). exact Ht.
Qed.

End Unique.

(** ** The uniqueness invariant *)

Section Invariant.
Context {U : Unicode}.

Lemma unique_snoc (df : DataFrame) (d : Donor) :
  unique df -> ~ In (identity d) (map identity df) -> unique (df ++ [d]).
Proof.
  unfold unique. intros Hu Hd. rewrite map_app. cbn [map].
  apply NoDup_Add with (a := identity d) (l := map identity df).
  - rewrite <- (app_nil_r (map identity df)) at 1. apply Add_app.
  - split; assumption.
Qed.

Lemma add_donor_form_unique submitted name age blood_group contact location w :
  unique_table w ->
  unique_table
    (snd (add_donor_form submitted name age blood_group contact location w)).
Proof.
  intros Hu.
  destruct (add_donor_form_cases submitted name age blood_group contact
              location w) as [Hb | [b [df [a [Hb [Ht [Hf Hb']]]]]]].
  - exact (unique_table_book _ _ Hb Hu).
  - destruct Hu as [Hs [df0 [Ht0 Hu]]].
    assert (df0 = df) by congruence. subst df0.
    set (d := {| col_name := normal_name name; col_age := str_of_int a;
                 col_blood_group := blood_group; col_contact := contact;
                 col_location := normal_location location |}).
    change [normal_name name; str_of_int a; blood_group; contact;
            normal_location location] with (cells d) in Hb'.
    destruct (donor_sheet_table w b df Hb (Hs b Hb) Ht)
      as [[Hnil ->] | [h [Hh Hsheet]]].
    + rewrite Hnil in Hb'. cbn [app] in Hb'. split.
      * intros b' Hb''. rewrite Hb' in Hb''. inversion Hb''. cbn [sheet].
        constructor; [reflexivity | constructor].
      * exists []. split; [|constructor].
        apply (table_of_donor_sheet _ _ (cells d) [] Hb'); reflexivity.
    + rewrite Hsheet in Hb'. cbn [app] in Hb'.
      change [cells d] with (map cells [d]) in Hb'. rewrite <- map_app in Hb'.
      split.
      * intros b' Hb''. rewrite Hb' in Hb''. inversion Hb''. cbn [sheet].
        constructor; [exact Hh | apply donor_sheet_cells].
      * exists (df ++ [d]). split.
        -- apply (table_of_donor_sheet _ _ h _ Hb' Hh). reflexivity.
        -- apply unique_snoc; [exact Hu|]. apply no_same_donor. exact Hf.
Qed.

Lemma manage_update_unique p apply new_name new_age new_blood new_contact
    new_location w :
  unique_table w ->
  unique_table
    (snd (manage_update p apply new_name new_age new_blood new_contact
            new_location w)).
Proof.
  intros Hu.
  destruct (manage_update_cases p apply new_name new_age new_blood new_contact
              new_location w)
    as [Hb | (b & df & old & a & Hb & Ht & Hn & _ & _ & _ & _ & _ & Hc & _ & Hb' & _)].
  - exact (unique_table_book _ _ Hb Hu).
  - destruct Hu as [Hs [df0 [Ht0 Hu]]].
    assert (df0 = df) by congruence. subst df0.
    set (d := {| col_name := new_name; col_age := str_of_int a;
                 col_blood_group := new_blood; col_contact := new_contact;
                 col_location := new_location |}).
    change [new_name; str_of_int a; new_blood; new_contact; new_location]
      with (cells d) in Hb'.
    destruct (donor_sheet_table w b df Hb (Hs b Hb) Ht)
      as [[_ ->] | [h [Hh Hsheet]]].
    { destruct (Pos.to_nat p - 1)%nat; discriminate. }
    assert (Hlt : (Pos.to_nat p - 1 < List.length df)%nat)
      by (apply nth_error_Some; congruence).
    pose proof (Pos2Nat.is_pos p) as Hpos.
    rewrite Hsheet in Hb'. unfold update in Hb'.
    replace (Pos.to_nat p + 1 - 1)%nat with (S (Pos.to_nat p - 1)) in Hb' by lia.
    cbn [write_row] in Hb'. rewrite write_row_cells in Hb' by exact Hlt.
    split.
    + intros b' Hb''. rewrite Hb' in Hb''. inversion Hb''. cbn [sheet].
      constructor; [exact Hh | apply donor_sheet_cells].
    + eexists. split.
      * apply (table_of_donor_sheet _ _ h _ Hb' Hh). reflexivity.
      * unfold unique in *. rewrite (nth_error_split_at df _ old Hn) in Hu.
        rewrite map_app in *. cbn [map] in *.
        apply NoDup_middle_swap with (x := identity old); [exact Hu|].
        destruct Hc as [Hf | [E1 E2]].
        -- right. apply no_same_donor in Hf.
           rewrite (nth_error_split_at df _ old Hn) in Hf.
           rewrite map_app in Hf. exact Hf.
        -- left. unfold identity. cbn [col_name col_contact d].
           rewrite E1, E2. reflexivity.
Qed.

Lemma manage_delete_unique p confirm cancel w :
  unique_table w -> unique_table (snd (manage_delete p confirm cancel w)).
Proof.
  intros Hu.
  destruct (manage_delete_cases p confirm cancel w)
    as [Hb | [b [df [Hb [Ht [Hle Hb']]]]]].
  - exact (unique_table_book _ _ Hb Hu).
  - destruct Hu as [Hs [df0 [Ht0 Hu]]].
    assert (df0 = df) by congruence. subst df0.
    destruct (donor_sheet_table w b df Hb (Hs b Hb) Ht)
      as [[Hnil ->] | [h [Hh Hsheet]]].
    + pose proof (Pos2Nat.is_pos p). simpl in Hle. lia.
    + pose proof (Pos2Nat.is_pos p) as Hpos.
      rewrite Hsheet in Hb'. unfold delete_rows in Hb'.
      replace (Pos.to_nat p + 1 - 1)%nat with (S (Pos.to_nat p - 1)) in Hb' by lia.
      cbn [remove_row] in Hb'. rewrite remove_row_cells in Hb'.
      split.
      * intros b' Hb''. rewrite Hb' in Hb''. inversion Hb''. cbn [sheet].
        constructor; [exact Hh | apply donor_sheet_cells].
      * eexists. split.
        -- apply (table_of_donor_sheet _ _ h _ Hb' Hh). reflexivity.
        -- unfold unique in *.
           destruct (nth_error df (Pos.to_nat p - 1)) as [old|] eqn:Hn.
           2:{ apply nth_error_None in Hn. lia. }
           rewrite (nth_error_split_at df _ old Hn) in Hu.
           rewrite map_app in *. cbn [map] in Hu.
           apply NoDup_remove_1 in Hu. exact Hu.
Qed.

End Invariant.

(** C2. On a donor table in which no two rows share a name (up to case)
    and contact, every add, update and delete keeps it so.  In particular a
    valid submission whose normalized name (up to case) and contact are
    those of a row of the table is turned down with the conflict message
    and the table stays as it is; so the second of two equal submissions
    is turned down. *)
Theorem uniqueness_preserved {U : Unicode} (w : World) :
  unique_table w ->
  (forall submitted name age blood_group contact location,
     unique_table
       (snd (add_donor_form submitted name age blood_group contact location w))) /\
  (forall p apply new_name new_age new_blood new_contact new_location,
     unique_table
       (snd (manage_update p apply new_name new_age new_blood new_contact
               new_location w))) /\
  (forall p confirm cancel,
     unique_table (snd (manage_delete p confirm cancel w))) /\
  (forall name age blood_group contact location v df d,
     validate name age blood_group contact location = Ok v ->
     all_valid v = true ->
     table w = Ok df -> In d df ->
     lower (col_name d) = lower (normal_name name) -> col_contact d = contact ->
     let w' := snd (add_donor_form true name age blood_group contact location w) in
     page w' = page w ++ [ErrDonorExists] /\
     book w' = book w /\ table w' = Ok df) /\
  (forall name age blood_group contact location v b,
     validate name age blood_group contact location = Ok v ->
     all_valid v = true ->
     book w = Some b -> sheet b <> [] ->
     let w1 := snd (add_donor_form true name age blood_group contact location w) in
     let w2 := snd (add_donor_form true name age blood_group contact location w1) in
     page w2 = page w1 ++ [ErrDonorExists] /\
     book w2 = book w1 /\ table w2 = table w1).
Proof.
  intros Hu.
  assert (Hrej : forall name age blood_group contact location v df d w0,
     validate name age blood_group contact location = Ok v ->
     all_valid v = true ->
     table w0 = Ok df -> In d df ->
     lower (col_name d) = lower (normal_name name) -> col_contact d = contact ->
     let w' := snd (add_donor_form true name age blood_group contact location w0) in
     page w' = page w0 ++ [ErrDonorExists] /\
     book w' = book w0 /\ table w' = Ok df).
  { intros name age bg contact location v df d w0 Hv Ha Ht Hd E1 E2. cbv zeta.
    rewrite (add_donor_form_rejects _ _ _ _ _ _ _ _ Hv Ha Ht).
    - cbn [snd page book]. repeat split.
      rewrite <- Ht. apply table_book. reflexivity.
    - intros Hf.
      assert (Hin : In d (filter (same_donor (normal_name name) contact) df)).
      { apply filter_In. split; [exact Hd|]. apply same_donor_identity.
        unfold identity. rewrite E1, E2. reflexivity. }
      rewrite Hf in Hin. destruct Hin. }
  split; [intros; apply add_donor_form_unique; exact Hu|].
  split; [intros; apply manage_update_unique; exact Hu|].
  split; [intros; apply manage_delete_unique; exact Hu|].
  split; [intros; eapply Hrej; eassumption|].
  intros name age bg contact location v b Hv Ha Hb Hne. cbv zeta.
  destruct Hu as [Hs [df [Ht Hu]]].
  destruct (filter (same_donor (normal_name name) contact) df) as [|x l] eqn:Hf.
  - destruct (add_donor_form_writes _ _ _ _ _ _ _ _ _ Hv Ha Hb Ht Hf)
      as [a [_ Hrun]].
    rewrite Hrun. cbn [snd].
    set (new := {| col_name := normal_name name; col_age := str_of_int a;
                   col_blood_group := bg; col_contact := contact;
                   col_location := normal_location location |}).
    set (w1 := {| book := _; page := _; outbox := _; manage_open := _ |}).
    destruct (donor_sheet_table w b df Hb (Hs b Hb) Ht)
      as [[Hnil _] | [h [Hh Hsheet]]]; [congruence|].
    assert (Ht1 : table w1 = Ok (df ++ [new])).
    { apply (table_of_donor_sheet w1 _ h _ eq_refl Hh). cbn [sheet].
      rewrite Hsheet. cbn [app]. rewrite map_app. reflexivity. }
    destruct (Hrej name age bg contact location v (df ++ [new]) new w1
                Hv Ha Ht1) as [P1 [P2 P3]];
      [apply in_or_app; right; left; reflexivity | reflexivity | reflexivity |].
    repeat split; [exact P1 | exact P2 | exact (eq_trans P3 (eq_sym Ht1))].
  - assert (Hx : In x (filter (same_donor (normal_name name) contact) df))
      by (rewrite Hf; left; reflexivity).
    apply filter_In in Hx. destruct Hx as [Hx Hsame].
    apply same_donor_identity in Hsame. unfold identity in Hsame.
    pose proof (f_equal fst Hsame) as E1. pose proof (f_equal snd Hsame) as E2.
    cbn [fst snd] in E1, E2.
    destruct (Hrej name age bg contact location v df x w Hv Ha Ht Hx E1 E2)
      as [P1 [P2 P3]].
    set (w1 := snd (add_donor_form true name age bg contact location w)) in *.
    destruct (Hrej name age bg contact location v df x w1 Hv Ha P3 Hx E1 E2)
      as [Q1 [Q2 Q3]].
    repeat split; [exact Q1 | exact Q2 | exact (eq_trans Q3 (eq_sym P3))].
Qed.

Lemma two_donors_unique : @unique_table latin1 two_donors.
Proof.
  split.
  - intros b Hb. inversion Hb. repeat constructor.
  - exists [ann; bob]. split; [reflexivity|].
    unfold unique. repeat constructor; simpl; intuition discriminate.
Qed.

Lemma uniqueness_preserved_witness :
  @unique_table latin1 two_donors /\
  @unique_table latin1
    (snd (@add_donor_form latin1 true (u "carl") (u "33") (u "B+")
            (u "9000000001") (u "delhi") two_donors)) /\
  (let w' := snd (@add_donor_form latin1 true (u " ann   LEE") (u "52") (u "AB+")
                    (u "9876543210") (u "Agra") two_donors) in
   page w' = page two_donors ++ [ErrDonorExists] /\
   book w' = book two_donors /\ table w' = Ok [ann; bob]).
Proof.
  split; [exact two_donors_unique|]. split.
  - apply (proj1 (uniqueness_preserved two_donors two_donors_unique)).
  - eapply (proj1 (proj2 (proj2 (proj2
              (uniqueness_preserved two_donors two_donors_unique))))).
    + reflexivity.
    + reflexivity.
    + reflexivity.
    + left. reflexivity.
    + reflexivity.
    + reflexivity.
Defined.

Example add_then_read :
  table
    (snd (@add_donor_form latin1 true (u "carl  de  souza") (u "033") (u "B+")
            (u "9000000001") (u "delhi") two_donors)) =
  Ok [ann; bob; donor "Carl De Souza" "33" "B+" "9000000001" "Delhi"].
Proof. reflexivity. Qed.

(** ** Updating a donor *)







(** ** Download via e-mail *)

(** An address the checker turns down is reported by [send_email] and
    nothing is handed to the mail server. *)
Lemma send_email_invalid (E : Env) (recipient csv : str) (w : World) :
  validate_email E recipient = false ->
  send_email E recipient csv w =
  (Ok tt, {| book := book w; page := page w ++ [ErrInvalidEmail];
             outbox := outbox w; manage_open := manage_open w |}).
Proof.
  intros Hv. unfold send_email, catch, bind. rewrite Hv. reflexivity.
Qed.

(** C1, as the code has it.  A confirmed export request whose recipient
    address is not empty and fails the validity check is reported as
    invalid and no SMTP send is attempted, but the request is still
    appended to the request log as one new row.  A request with an empty
    address, or one that is not confirmed, only shows a message: nothing is
    sent and the log stays as it is. *)
Theorem invalid_email_reported_not_sent_but_logged
    (E : Env) (w : World) (b : Workbook) (df : DataFrame)
    (email_address blood_group : str) (selected_locations : list str) :
  book w = Some b -> table w = Ok df ->
  validate_email E email_address = false ->
  (email_address <> [] ->
   let w' := snd (download_email_form E email_address blood_group
                    selected_locations true w) in
   (exists rest, page w' = page w ++ ErrInvalidEmail :: rest) /\
   outbox w' = outbox w /\
   book w' =
   Some {| sheet := sheet b;
           log_sheet := log_sheet b ++
             [[email_address; blood_group; locations_text selected_locations;
               now E]] |}) /\
  (forall confirm_send,
     email_address = [] \/ confirm_send = false ->
     let w' := snd (download_email_form E email_address blood_group
                      selected_locations confirm_send w) in
     (exists m, page w' = page w ++ [m]) /\
     outbox w' = outbox w /\ book w' = book w).
Proof.
  intros Hb Ht Hv. split.
  - intros Hne. cbv zeta.
    unfold download_email_form, bind. rewrite get_donors_table, Ht.
    destruct email_address as [|c s]; [congruence|]. cbn [truthy negb].
    unfold catch, bind. rewrite (send_email_invalid E _ _ _ Hv).
    unfold say, the_log_sheet, ret, set_log_sheet.
    cbn [fst snd book page outbox manage_open]. rewrite ?Hb.
    cbn [fst snd book page outbox manage_open option_map sheet log_sheet].
    rewrite update_next_row.
    repeat split. eexists. rewrite <- app_assoc. reflexivity.
  - intros confirm Hc. cbv zeta.
    unfold download_email_form, bind. rewrite get_donors_table, Ht.
    destruct email_address as [|c s].
    + cbn. repeat split. eauto.
    + destruct Hc as [Hc | ->]; [discriminate|].
      cbn. repeat split. eauto.
Qed.

Lemma invalid_email_reported_not_sent_but_logged_witness :
  let w' := snd (download_email_form env_ok (u "ann.example.org") (u "O+")
                   [u "Pune"; u "Goa"] true two_donors) in
  validate_email env_ok (u "ann.example.org") = false /\
  (exists rest, page w' = page two_donors ++ ErrInvalidEmail :: rest) /\
  outbox w' = outbox two_donors /\
  book w' =
  Some {| sheet := [expected_headers; cells ann; cells bob];
          log_sheet := [log_headers;
                        [u "ann.example.org"; u "O+"; u "Pune, Goa";
                         u "2024-01-01 12:00:00"]] |}.
Proof.
  cbv zeta. split; [reflexivity|].
  apply (proj1 (invalid_email_reported_not_sent_but_logged env_ok two_donors _
                  [ann; bob] (u "ann.example.org") (u "O+") [u "Pune"; u "Goa"]
                  eq_refl eq_refl eq_refl)).
  discriminate.
Defined.

(** The address [not-an-email] is turned down, and the request is in the
    log all the same. *)
Lemma invalid_email_leaves_a_log_entry :
  let w' := snd (download_email_form env_ok (u "not-an-email") (u "All") []
                   true two_donors) in
  validate_email env_ok (u "not-an-email") = false /\
  In ErrInvalidEmail (page w') /\
  outbox w' = [] /\
  option_map log_sheet (book two_donors) = Some [log_headers] /\
  option_map log_sheet (book w') =
  Some [log_headers;
        [u "not-an-email"; u "All"; u "All Locations"; u "2024-01-01 12:00:00"]] /\
  option_map log_sheet (book w') <> option_map log_sheet (book two_donors).
Proof.
  cbv zeta. repeat split; try reflexivity.
  - left. reflexivity.
  - discriminate.
Qed.

Example valid_email_is_sent_and_logged :
  let w' := snd (download_email_form env_ok (u "ann@example.org") (u "O+") []
                   true two_donors) in
  page w' = [OkEmailSent;
             OkListSent (u "ann@example.org") (u "O+") (u "All Locations")
               (u "2024-01-01 12:00:00")] /\
  outbox w' = [{| mail_from := u "bank@example.org";
                  mail_to := u "ann@example.org";
                  mail_attachment := to_csv Posix [ann] |}].
Proof. cbv zeta. split; reflexivity. Qed.

(** ** Reading the donor table: examples *)

Lemma get_donors_reads_rows_witness :
  get_donors offline = (Ok [], offline) /\
  get_donors (world_of [expected_headers] []) =
    (Ok [], world_of [expected_headers] []) /\
  (exists df, get_donors two_donors = (Ok df, two_donors) /\
              map cells df = [cells ann; cells bob]).
Proof.
  split; [|split].
  - apply (proj1 (get_donors_reads_rows offline)). reflexivity.
  - apply (proj1 (proj2 (get_donors_reads_rows (world_of [expected_headers] [])))
             _ eq_refl).
    simpl. lia.
  - apply (proj2 (proj2 (get_donors_reads_rows two_donors))
             _ expected_headers _ eq_refl eq_refl).
    repeat constructor.
Defined.

Example get_donors_wide_sheet :
  fst (get_donors (world_of [expected_headers ++ [u "notes"]; cells ann] [])) =
  Raise ValueError.
Proof. reflexivity. Qed.

(* ===================================================================== *)
(** * Further properties of the script *)
(* ===================================================================== *)

(** ** Adding a donor *)

Lemma add_donor_form_table {U : Unicode} (w : World) (b : Workbook)
    (df : DataFrame) (name age blood_group contact location : str)
    (v : Validity) :
  book w = Some b -> sheet b <> [] -> donor_sheet (sheet b) ->
  table w = Ok df ->
  validate name age blood_group contact location = Ok v ->
  all_valid v = true ->
  filter (same_donor (normal_name name) contact) df = [] ->
  exists a, int age = Ok a /\
    let d := {| col_name := normal_name name; col_age := str_of_int a;
                col_blood_group := blood_group; col_contact := contact;
                col_location := normal_location location |} in
    let run := add_donor_form true name age blood_group contact location w in
    fst run = Ok tt /\
    page (snd run) = page w ++ [OkDonorAdded] /\
    table (snd run) = Ok (df ++ [d]).
Proof.
  intros Hb Hne Hs Ht Hv Ha Hf.
  destruct (add_donor_form_writes _ _ _ _ _ _ _ _ _ Hv Ha Hb Ht Hf)
    as [a [Hint Hrun]].
  exists a. split; [exact Hint|]. cbv zeta. rewrite Hrun. cbn [fst snd page].
  split; [reflexivity|]. split; [reflexivity|].
  destruct (donor_sheet_table w b df Hb Hs Ht)
    as [[Hnil _] | [h [Hh Hsheet]]]; [congruence|].
  eapply table_of_donor_sheet with (header := h);
    [reflexivity | exact Hh |].
  cbn [sheet]. rewrite Hsheet. cbn [app]. rewrite map_app. reflexivity.
Qed.

(** X1.  Add, then read.  On a donor sheet with its header row, a valid
    submission that collides with no row ends normally with the success
    message; the table read afterwards is the old one followed by the new
    record, with the name and location normalized and the age as the
    integer it writes, and the duplicate check finds that record exactly
    once. *)
Theorem add_donor_form_then_read {U : Unicode} (w : World) (b : Workbook)
    (df : DataFrame) (name age blood_group contact location : str)
    (v : Validity) :
  book w = Some b -> sheet b <> [] -> donor_sheet (sheet b) ->
  table w = Ok df ->
  validate name age blood_group contact location = Ok v ->
  all_valid v = true ->
  filter (same_donor (normal_name name) contact) df = [] ->
  exists a, int age = Ok a /\
    let d := {| col_name := normal_name name; col_age := str_of_int a;
                col_blood_group := blood_group; col_contact := contact;
                col_location := normal_location location |} in
    let run := add_donor_form true name age blood_group contact location w in
    fst run = Ok tt /\
    page (snd run) = page w ++ [OkDonorAdded] /\
    table (snd run) = Ok (df ++ [d]) /\
    filter (same_donor (normal_name name) contact) (df ++ [d]) = [d].
Proof.
  intros Hb Hne Hs Ht Hv Ha Hf.
  destruct (add_donor_form_table w b df name age blood_group contact location
              v Hb Hne Hs Ht Hv Ha Hf) as [a [Hint H]].
  cbv zeta in H. destruct H as (H1 & H2 & H3).
  exists a. split; [exact Hint|]. cbv zeta.
  split; [exact H1|]. split; [exact H2|]. split; [exact H3|].
  rewrite filter_app, Hf. cbn [app filter].
  unfold same_donor at 1. cbn [col_name col_contact].
  rewrite !str_eqb_refl. reflexivity.
Qed.

Lemma add_donor_form_then_read_witness :
  let carl := donor "Carl De Souza" "33" "B+" "9000000001" "Delhi" in
  let run := @add_donor_form latin1 true (u " carl  de souza ") (u "033")
               (u "B+") (u "9000000001") (u "delhi") two_donors in
  donor_sheet [expected_headers; cells ann; cells bob] /\
  fst run = Ok tt /\
  page (snd run) = [OkDonorAdded] /\
  table (snd run) = Ok [ann; bob; carl].
Proof.
  cbv zeta.
  edestruct (@add_donor_form_then_read latin1 two_donors
               {| sheet := [expected_headers; cells ann; cells bob];
                  log_sheet := [log_headers] |} [ann; bob]
               (u " carl  de souza ") (u "033") (u "B+") (u "9000000001")
               (u "delhi")) as [a [Ha H]].
  - reflexivity.
  - discriminate.
  - repeat constructor.
  - reflexivity.
  - reflexivity.
  - reflexivity.
  - reflexivity.
  - cbv zeta in H. destruct H as [H1 [H2 [H3 _]]].
    split; [repeat constructor|].
    split; [exact H1|]. split; [exact H2|].
    rewrite H3. vm_compute in Ha. inversion Ha. reflexivity.
Defined.

(** X2.  A form that is not submitted, or whose fields are not all valid,
    writes nothing: it ends normally, the workbook is as before, and the
    page gains exactly the inline messages of the non-empty invalid
    fields. *)
Theorem add_donor_form_invalid_writes_nothing {U : Unicode} (w : World)
    (submitted : bool) (name age blood_group contact location : str)
    (v : Validity) :
  validate name age blood_group contact location = Ok v ->
  submitted && all_valid v = false ->
  let run := add_donor_form submitted name age blood_group contact location w in
  fst run = Ok tt /\
  book (snd run) = book w /\ outbox (snd run) = outbox w /\
  page (snd run) =
    page w
    ++ (if truthy name && negb (v_name v) then [ErrNameChars] else [])
    ++ (if truthy age && negb (v_age v) then [ErrAgeRange] else [])
    ++ (if truthy contact && negb (v_contact v) then [ErrPhoneDigits] else [])
    ++ (if truthy location && negb (v_location v) then [ErrLocationChars] else []).
Proof.
  intros Hv Hs. cbv zeta. unfold add_donor_form, bind, lift.
  rewrite Hv, Hs. unfold when, say, ret.
  destruct (truthy name && negb (v_name v));
  destruct (truthy age && negb (v_age v));
  destruct (truthy contact && negb (v_contact v));
  destruct (truthy location && negb (v_location v));
  cbn [fst snd book page outbox app];
  rewrite <- ?app_assoc, ?app_nil_r; cbn [app]; auto.
Qed.

Lemma add_donor_form_invalid_writes_nothing_witness :
  let run := @add_donor_form latin1 true (u "R2-D2") (u "17") (u "O+")
               (u "12345") (u "") two_donors in
  fst run = Ok tt /\ book (snd run) = book two_donors /\
  page (snd run) = [ErrNameChars; ErrAgeRange; ErrPhoneDigits].
Proof.
  cbv zeta.
  edestruct (@add_donor_form_invalid_writes_nothing latin1 two_donors true
               (u "R2-D2") (u "17") (u "O+") (u "12345") (u ""))
    as [H1 [H2 [_ H4]]]; [reflexivity | reflexivity |].
  split; [exact H1|]. split; [exact H2|]. exact H4.
Defined.

(** X3.  Without a client, a valid submission raises: the duplicate check
    passes on the empty frame and [sheet.get_all_values()] is called on
    None.  Nothing is shown and nothing is written. *)
Theorem add_donor_form_offline_raises {U : Unicode} (w : World)
    (name age blood_group contact location : str) (v : Validity) :
  book w = None ->
  validate name age blood_group contact location = Ok v ->
  all_valid v = true ->
  add_donor_form true name age blood_group contact location w =
  (Raise AttributeError, w).
Proof.
  intros Hb Hv Ha.
  destruct (all_valid_fields _ _ _ _ _ _ Hv Ha) as [H1 [H2 [H3 [H4 _]]]].
  unfold add_donor_form, bind, lift. rewrite Hv.
  rewrite H1, H2, H3, H4, Ha. cbn [negb andb when ret].
  rewrite !andb_false_r. cbn [when ret].
  unfold get_donors. rewrite Hb. cbn [filter empty negb].
  unfold the_sheet. rewrite Hb. reflexivity.
Qed.

Lemma add_donor_form_offline_raises_witness :
  @add_donor_form latin1 true (u "Ann Lee") (u "30") (u "O+")
    (u "9876543210") (u "Pune") offline = (Raise AttributeError, offline).
Proof.
  eapply (@add_donor_form_offline_raises latin1 offline); reflexivity.
Defined.

(** ** Donor management: the row number *)

Lemma valid_row_guard (df : DataFrame) (p : positive) :
  negb (empty df) && (Pos.to_nat p <=? List.length df)%nat = true <->
  (Pos.to_nat p <= List.length df)%nat.
Proof.
  pose proof (Pos2Nat.is_pos p) as Hp. split.
  - intros H. apply andb_prop in H. destruct H as [_ H].
    apply Nat.leb_le. exact H.
  - intros H. destruct df as [|d df]; [simpl in H; lia|].
    cbn [empty negb andb]. apply Nat.leb_le. exact H.
Qed.

(** X4.  A row number beyond the table (so every row number on an empty table
    or without a client) gets the warning from the update and from the
    delete path, whatever else is entered or pressed; nothing is written
    and no exception is raised. *)
Theorem manage_invalid_index {U : Unicode} (w : World) (df : DataFrame)
    (p : positive) :
  table w = Ok df -> (List.length df < Pos.to_nat p)%nat ->
  let w' := {| book := book w; page := page w ++ [WarnInvalidIndex];
               outbox := outbox w; manage_open := manage_open w |} in
  (forall apply new_name new_age new_blood new_contact new_location,
     manage_update p apply new_name new_age new_blood new_contact
       new_location w = (Ok tt, w')) /\
  (forall confirm cancel, manage_delete p confirm cancel w = (Ok tt, w')).
Proof.
  intros Ht Hlt. cbv zeta.
  assert (Hg : negb (empty df) && (Pos.to_nat p <=? List.length df)%nat = false).
  { destruct (negb (empty df) && (Pos.to_nat p <=? List.length df)%nat) eqn:Hg;
      [|reflexivity].
    apply valid_row_guard in Hg. lia. }
  split; intros; unfold manage_update, manage_delete, bind;
    rewrite get_donors_table, Ht, Hg; reflexivity.
Qed.

Lemma manage_invalid_index_witness :
  @manage_update latin1 3 true (u "Cy") (u "40") (u "O+") (u "9000000002")
    (u "Agra") two_donors =
  (Ok tt, {| book := book two_donors; page := [WarnInvalidIndex];
             outbox := []; manage_open := false |}) /\
  manage_delete 1 true false offline =
  (Ok tt, {| book := None; page := [WarnInvalidIndex];
             outbox := []; manage_open := false |}).
Proof.
  split.
  - apply (proj1 (@manage_invalid_index latin1 two_donors [ann; bob] 3
                    eq_refl ltac:(simpl; lia))).
  - apply (proj2 (@manage_invalid_index latin1 offline [] 1
                    eq_refl ltac:(simpl; lia))).
Defined.

(** ** Deleting a donor *)

Lemma manage_delete_run (w : World) (b : Workbook) (df : DataFrame)
    (p : positive) :
  book w = Some b -> donor_sheet (sheet b) -> table w = Ok df ->
  (Pos.to_nat p <= List.length df)%nat ->
  let run := manage_delete p true false w in
  let df' := firstn (Pos.to_nat p - 1) df ++ skipn (Pos.to_nat p) df in
  fst run = Ok tt /\
  table (snd run) = Ok df' /\
  page (snd run) = page w ++ [ErrConfirmDelete; OkDonorDeleted] /\
  manage_open (snd run) = false /\
  option_map sheet (book (snd run)) =
    Some (delete_rows (Pos.to_nat p + 1) (sheet b)) /\
  option_map log_sheet (book (snd run)) = Some (log_sheet b) /\
  outbox (snd run) = outbox w.
Proof.
  intros Hb Hs Ht Hle. cbv zeta.
  pose proof (Pos2Nat.is_pos p) as Hp.
  set (df' := firstn (Pos.to_nat p - 1) df ++ skipn (Pos.to_nat p) df).
  destruct (donor_sheet_table w b df Hb Hs Ht) as [[_ ->] | [h [Hh Hsheet]]].
  { simpl in Hle. lia. }
  assert (Hdel : delete_rows (Pos.to_nat p + 1) (sheet b) = h :: map cells df').
  { rewrite Hsheet. unfold delete_rows.
    replace (Pos.to_nat p + 1 - 1)%nat with (S (Pos.to_nat p - 1)) by lia.
    cbn [remove_row]. rewrite remove_row_cells. unfold df'.
    replace (S (Pos.to_nat p - 1)) with (Pos.to_nat p) by lia. reflexivity. }
  assert (Hrun : manage_delete p true false w =
    (Ok tt, {| book := Some {| sheet := h :: map cells df';
                               log_sheet := log_sheet b |};
               page := page w ++ [ErrConfirmDelete; OkDonorDeleted];
               outbox := outbox w; manage_open := false |})).
  { unfold manage_delete, bind. rewrite get_donors_table, Ht.
    rewrite (proj2 (valid_row_guard df p) Hle). unfold lift.
    destruct (nth_error df (Pos.to_nat p - 1)) as [old|] eqn:Hn.
    2:{ apply nth_error_None in Hn. lia. }
    unfold say at 1. cbn [fst snd when].
    unfold bind, delete_donor. cbn [book]. rewrite Hb.
    unfold set_sheet, say. cbn [option_map fst snd book page outbox].
    rewrite ?Hb. cbn [option_map]. rewrite Hdel.
    rewrite get_donors_table.
    match goal with |- context [table ?w1] =>
      rewrite (table_of_donor_sheet w1 _ h df' eq_refl Hh eq_refl) end.
    cbn [set_manage_open fst snd book page outbox ret].
    rewrite <- app_assoc. reflexivity. }
  rewrite Hrun.
  cbn [fst snd book page outbox manage_open option_map log_sheet sheet].
  split; [reflexivity|]. split.
  { eapply table_of_donor_sheet with (header := h);
      [reflexivity | exact Hh | reflexivity]. }
  split; [reflexivity|]. split; [reflexivity|].
  split; [rewrite Hdel; reflexivity|].
  split; reflexivity.
Qed.

(** X5.  Delete, then read.  On a donor sheet, confirming the deletion of row
    [p] of the table ends normally with the success message and closes the
    panel; the table read afterwards is the old one without its record
    [p]: the records before it keep their row numbers and every later one
    moves up by one.  The log and the outbox are as before. *)
Theorem manage_delete_then_read (w : World) (b : Workbook) (df : DataFrame)
    (p : positive) :
  book w = Some b -> donor_sheet (sheet b) -> table w = Ok df ->
  (Pos.to_nat p <= List.length df)%nat ->
  let run := manage_delete p true false w in
  let df' := firstn (Pos.to_nat p - 1) df ++ skipn (Pos.to_nat p) df in
  fst run = Ok tt /\
  table (snd run) = Ok df' /\
  page (snd run) = page w ++ [ErrConfirmDelete; OkDonorDeleted] /\
  manage_open (snd run) = false /\
  option_map sheet (book (snd run)) =
    Some (delete_rows (Pos.to_nat p + 1) (sheet b)) /\
  option_map log_sheet (book (snd run)) = Some (log_sheet b) /\
  outbox (snd run) = outbox w /\
  S (List.length df') = List.length df /\
  (forall j, (j < Pos.to_nat p - 1)%nat -> nth_error df' j = nth_error df j) /\
  (forall j, (Pos.to_nat p - 1 <= j)%nat -> nth_error df' j = nth_error df (S j)).
Proof.
  intros Hb Hs Ht Hle.
  pose proof (manage_delete_run w b df p Hb Hs Ht Hle) as H.
  cbv zeta in *. destruct H as (H1 & H2 & H3 & H4 & H5 & H6 & H7).
  pose proof (Pos2Nat.is_pos p) as Hp.
  repeat (split; [assumption|]).
  assert (Hlen : List.length (firstn (Pos.to_nat p - 1) df) = (Pos.to_nat p - 1)%nat)
    by (apply firstn_length_le; lia).
  split; [|split].
  - rewrite length_app, Hlen, length_skipn. lia.
  - intros j Hj. rewrite nth_error_app1 by lia.
    rewrite nth_error_firstn.
    destruct (Nat.ltb_spec j (Pos.to_nat p - 1)); [reflexivity | lia].
  - intros j Hj. rewrite nth_error_app2 by lia.
    rewrite Hlen, nth_error_skipn. f_equal. lia.
Qed.

Lemma manage_delete_then_read_witness :
  let run := manage_delete 1 true false two_donors in
  donor_sheet [expected_headers; cells ann; cells bob] /\
  fst run = Ok tt /\ table (snd run) = Ok [bob] /\
  page (snd run) = [ErrConfirmDelete; OkDonorDeleted].
Proof.
  cbv zeta.
  destruct (manage_delete_then_read two_donors
              {| sheet := [expected_headers; cells ann; cells bob];
                 log_sheet := [log_headers] |} [ann; bob] 1 eq_refl)
    as [H1 [H2 [H3 _]]].
  - repeat constructor.
  - reflexivity.
  - simpl. lia.
  - split; [repeat constructor|]. split; [exact H1|].
    split; [exact H2 | exact H3].
Defined.

(** X6.  Without the confirmation nothing is deleted: a run of the delete path
    in which [Confirm Delete] is not pressed leaves the workbook as it is,
    whatever the row number and whether or not [Cancel] is pressed. *)
Theorem manage_delete_needs_confirmation (w : World) (p : positive)
    (cancel : bool) :
  let run := manage_delete p false cancel w in
  book (snd run) = book w /\ outbox (snd run) = outbox w /\
  (forall df, table w = Ok df -> (Pos.to_nat p <= List.length df)%nat ->
     fst run = Ok tt /\
     page (snd run) =
       page w ++ ErrConfirmDelete
              :: (if cancel then [InfoDeleteCancelled] else [])).
Proof.
  cbv zeta. unfold manage_delete, bind. rewrite get_donors_table.
  destruct (table w) as [df|e] eqn:Ht.
  2:{ split; [reflexivity|]. split; [reflexivity|].
      intros df0 Hdf. discriminate. }
  destruct (negb (empty df) && (Pos.to_nat p <=? List.length df)%nat) eqn:Hg.
  2:{ split; [reflexivity|]. split; [reflexivity|].
      intros df0 Hdf Hle. inversion Hdf; subst df0.
      apply valid_row_guard in Hle. congruence. }
  apply valid_row_guard in Hg. unfold lift.
  destruct (nth_error df (Pos.to_nat p - 1)) as [old|] eqn:Hn.
  2:{ apply nth_error_None in Hn. pose proof (Pos2Nat.is_pos p). lia. }
  unfold say at 1. cbn [fst snd when ret].
  destruct cancel; cbn [when ret bind say set_manage_open fst snd book page outbox];
    (split; [reflexivity|]; split; [reflexivity|]; intros df0 _ _;
     split; [reflexivity|]; rewrite <- ?app_assoc; reflexivity).
Qed.

Lemma manage_delete_needs_confirmation_witness :
  let run := manage_delete 2 false true two_donors in
  book (snd run) = book two_donors /\
  fst run = Ok tt /\
  page (snd run) = [ErrConfirmDelete; InfoDeleteCancelled].
Proof.
  cbv zeta.
  destruct (manage_delete_needs_confirmation two_donors 2 true)
    as [H1 [_ H3]].
  split; [exact H1|]. apply (H3 [ann; bob] eq_refl). simpl. lia.
Defined.

Lemma remove_last_row (g : Grid) (r : Row) :
  remove_row (List.length g) (g ++ [r]) = g.
Proof. induction g as [|x g IH]; simpl; [reflexivity | rewrite IH; reflexivity]. Qed.

(** X7.  Deleting the row an add has just written gives the old sheet and the
    old table back. *)
Theorem add_then_delete_restores {U : Unicode} (w : World) (b : Workbook)
    (df : DataFrame) (name age blood_group contact location : str)
    (v : Validity) :
  book w = Some b -> sheet b <> [] -> donor_sheet (sheet b) ->
  table w = Ok df ->
  validate name age blood_group contact location = Ok v ->
  all_valid v = true ->
  filter (same_donor (normal_name name) contact) df = [] ->
  let w1 := snd (add_donor_form true name age blood_group contact location w) in
  let last := Pos.of_nat (S (List.length df)) in
  let w2 := snd (manage_delete last true false w1) in
  table w2 = Ok df /\
  option_map sheet (book w2) = Some (sheet b).
Proof.
  intros Hb Hne Hs Ht Hv Ha Hf. cbv zeta.
  destruct (add_donor_form_writes _ _ _ _ _ _ _ _ _ Hv Ha Hb Ht Hf)
    as [a [_ Hrun]].
  rewrite Hrun. cbn [snd].
  set (d := {| col_name := normal_name name; col_age := str_of_int a;
               col_blood_group := blood_group; col_contact := contact;
               col_location := normal_location location |}).
  set (w1 := {| book := _; page := _; outbox := _; manage_open := _ |}).
  assert (Hb1 : book w1 = Some {| sheet := sheet b ++ [cells d];
                                  log_sheet := log_sheet b |}) by reflexivity.
  destruct (donor_sheet_table w b df Hb Hs Ht)
    as [[Hnil _] | [h [Hh Hsheet]]]; [congruence|].
  assert (Hs1 : sheet b ++ [cells d] = h :: map cells (df ++ [d])).
  { rewrite Hsheet, map_app. reflexivity. }
  assert (Hn : Pos.to_nat (Pos.of_nat (S (List.length df))) = S (List.length df))
    by (apply Nat2Pos.id; discriminate).
  destruct (manage_delete_run w1 _ (df ++ [d])
              (Pos.of_nat (S (List.length df))) Hb1)
    as (_ & H2 & _ & _ & H5 & _).
  - cbn [sheet]. rewrite Hs1. constructor; [exact Hh | apply donor_sheet_cells].
  - eapply table_of_donor_sheet with (header := h);
      [exact Hb1 | exact Hh | exact Hs1].
  - rewrite Hn, length_app. simpl. lia.
  - rewrite Hn in H2, H5. split.
    + rewrite H2.
      replace (S (List.length df) - 1)%nat with (List.length df + 0)%nat by lia.
      rewrite firstn_app_2. cbn [firstn].
      rewrite skipn_all2 by (rewrite length_app; simpl; lia).
      rewrite !app_nil_r. reflexivity.
    + rewrite H5. cbn [sheet]. unfold delete_rows.
      replace (S (List.length df) + 1 - 1)%nat with (List.length (sheet b)).
      * rewrite remove_last_row. reflexivity.
      * rewrite Hsheet. cbn [List.length]. rewrite length_map. lia.
Qed.

Lemma add_then_delete_restores_witness :
  let w1 := snd (@add_donor_form latin1 true (u "carl") (u "33") (u "B+")
                   (u "9000000001") (u "delhi") two_donors) in
  let w2 := snd (manage_delete 3 true false w1) in
  donor_sheet [expected_headers; cells ann; cells bob] /\
  table w1 = Ok [ann; bob; donor "Carl" "33" "B+" "9000000001" "Delhi"] /\
  table w2 = Ok [ann; bob] /\
  option_map sheet (book w2) = Some [expected_headers; cells ann; cells bob].
Proof.
  cbv zeta. split; [repeat constructor|]. split; [reflexivity|].
  edestruct (@add_then_delete_restores latin1 two_donors
               {| sheet := [expected_headers; cells ann; cells bob];
                  log_sheet := [log_headers] |} [ann; bob]
               (u "carl") (u "33") (u "B+") (u "9000000001") (u "delhi"))
    as [H1 H2].
  - reflexivity.
  - discriminate.
  - repeat constructor.
  - reflexivity.
  - reflexivity.
  - reflexivity.
  - reflexivity.
  - split; [exact H1 | exact H2].
Defined.

(** ** Updating a donor: what is turned down *)

Lemma index_known (l : list str) (x : str) :
  In x l -> exists i, index l x = Ok i.
Proof.
  induction l as [|y l IH]; intros Hin; [destruct Hin|].
  cbn [index]. destruct (str_eqb y x) eqn:Hy; [eauto|].
  destruct Hin as [->|Hin]; [rewrite str_eqb_refl in Hy; discriminate|].
  destruct (IH Hin) as [i ->]. cbn [rbind]. eauto.
Qed.


Section UpdateRejections.
Context {U : Unicode}.
Variables (w : World) (df : DataFrame) (p : positive) (old : Donor).
Hypothesis Ht : table w = Ok df.
Hypothesis Hn : nth_error df (Pos.to_nat p - 1) = Some old.

Lemma update_row_in_range :
  negb (empty df) && (Pos.to_nat p <=? List.length df)%nat = true.
Proof.
  apply valid_row_guard.
  assert (Pos.to_nat p - 1 < List.length df)%nat
    by (apply nth_error_Some; congruence).
  pose proof (Pos2Nat.is_pos p). lia.
Qed.


(** X9.  Values that fail the guard of the update path (an empty name, contact
    or location, or an age that is not a digit string) are turned down
    with the message for invalid values; nothing is written. *)
Theorem manage_update_guard_rejects
    (new_name new_age new_blood new_contact new_location : str) :
  In (col_blood_group old) blood_groups ->
  new_name = [] \/ isdigit new_age = false \/ new_contact = [] \/
  new_location = [] ->
  manage_update p true new_name new_age new_blood new_contact new_location w =
  (Ok tt, {| book := book w; page := page w ++ [ErrInvalidUpdateValues];
             outbox := outbox w; manage_open := manage_open w |}).
Proof.
  intros Hbg Hbad. unfold manage_update, bind.
  rewrite get_donors_table, Ht, update_row_in_range. unfold lift.
  rewrite Hn. destruct (index_known _ _ Hbg) as [i ->].
  assert (Hg : truthy new_name && isdigit new_age && truthy new_contact
               && truthy new_location = false).
  { destruct Hbad as [-> | [-> | [-> | ->]]]; cbn [truthy andb];
      rewrite ?andb_false_r; reflexivity. }
  rewrite Hg. reflexivity.
Qed.

(** X10.  Values that pass the guard and are the name (up to case) and contact
    of a row of the table, while the edited row has another name or
    contact, are turned down with the conflict message; nothing is
    written. *)
Theorem manage_update_conflict_rejects
    (new_name new_age new_blood new_contact new_location : str) (d : Donor) :
  In (col_blood_group old) blood_groups ->
  new_name <> [] -> isdigit new_age = true -> new_contact <> [] ->
  new_location <> [] ->
  In d df -> lower (col_name d) = lower new_name -> col_contact d = new_contact ->
  ~ (lower (col_name old) = lower new_name /\ col_contact old = new_contact) ->
  manage_update p true new_name new_age new_blood new_contact new_location w =
  (Ok tt, {| book := book w; page := page w ++ [ErrAnotherDonorExists];
             outbox := outbox w; manage_open := manage_open w |}).
Proof.
  intros Hbg H1 H2 H3 H4 Hd E1 E2 Hown. unfold manage_update, bind.
  rewrite get_donors_table, Ht, update_row_in_range. unfold lift.
  rewrite Hn. destruct (index_known _ _ Hbg) as [i ->].
  assert (T : forall s : str, s <> [] -> truthy s = true)
    by (intros [|c s] H; [congruence | reflexivity]).
  rewrite (T _ H1), H2, (T _ H3), (T _ H4). cbn [andb].
  assert (Hc : negb (empty (filter (same_donor new_name new_contact) df)) &&
               negb (str_eqb (lower (col_name old)) (lower new_name) &&
                     str_eqb (col_contact old) new_contact) = true).
  { apply andb_true_intro. split.
    - assert (Hin : In d (filter (same_donor new_name new_contact) df)).
      { apply filter_In. split; [exact Hd|]. apply same_donor_identity.
        unfold identity. rewrite E1, E2. reflexivity. }
      destruct (filter _ df); [destruct Hin | reflexivity].
    - apply negb_true_iff. apply not_true_is_false. intros H.
      apply andb_prop in H. destruct H as [A B].
      apply str_eqb_eq in A, B. apply Hown. auto. }
  rewrite Hc. reflexivity.
Qed.

End UpdateRejections.


Lemma manage_update_guard_rejects_witness :
  @manage_update latin1 1 true (u "Ann Lee") (u "thirty") (u "O+")
    (u "9876543210") (u "Pune") two_donors =
  (Ok tt, {| book := book two_donors; page := [ErrInvalidUpdateValues];
             outbox := []; manage_open := false |}).
Proof.
  apply (@manage_update_guard_rejects latin1 two_donors [ann; bob] 1 ann
           eq_refl eq_refl).
  - repeat (first [left; reflexivity | right]).
  - right. left. reflexivity.
Defined.

Lemma manage_update_conflict_rejects_witness :
  @manage_update latin1 2 true (u "ANN LEE") (u "45") (u "A-")
    (u "9876543210") (u "Goa") two_donors =
  (Ok tt, {| book := book two_donors; page := [ErrAnotherDonorExists];
             outbox := []; manage_open := false |}).
Proof.
  apply (@manage_update_conflict_rejects latin1 two_donors [ann; bob] 2 bob
           eq_refl eq_refl (u "ANN LEE") (u "45") (u "A-") (u "9876543210")
           (u "Goa") ann).
  - repeat (first [left; reflexivity | right]).
  - discriminate.
  - reflexivity.
  - discriminate.
  - discriminate.
  - left. reflexivity.
  - reflexivity.
  - reflexivity.
  - intros [H _]. discriminate H.
Defined.

(** ** Sending the e-mail *)

Section SendEmail.
Variable E : Env.

Lemma credentials_none (recipient csv : str) (w : World) :
  validate_email E recipient = true -> credentials E = None ->
  send_email E recipient csv w =
  (Ok tt, {| book := book w; page := page w ++ [ErrNoCredentials];
             outbox := outbox w; manage_open := manage_open w |}).
Proof.
  intros Hv Hc. unfold send_email, catch, bind. rewrite Hv.
  unfold credentials in Hc. cbn [ret].
  destruct (secrets_sender E) as [s|]; destruct (secrets_pass E) as [p|];
    try (destruct (getenv_sender E) as [s'|]);
    try (destruct (getenv_pass E) as [p'|]);
    try reflexivity.
  all: match goal with
       | H : (if truthy ?a && truthy ?b then _ else _) = None |- _ =>
           destruct (truthy a); destruct (truthy b); try discriminate H;
           reflexivity
       end.
Qed.

Lemma credentials_some (recipient csv s p : str) (w : World) :
  validate_email E recipient = true -> credentials E = Some (s, p) ->
  let m := {| mail_from := s; mail_to := recipient; mail_attachment := csv |} in
  send_email E recipient csv w =
  (Ok tt, {| book := book w;
             page := page w ++ [if smtp_accepts E m then OkEmailSent
                                else ErrSendFailed];
             outbox := outbox w ++ [m]; manage_open := manage_open w |}).
Proof.
  intros Hv Hc. cbv zeta. unfold send_email, catch, bind. rewrite Hv.
  unfold credentials in Hc. cbn [ret].
  destruct (secrets_sender E) as [s0|]; destruct (secrets_pass E) as [p0|];
    try (destruct (getenv_sender E) as [s1|]);
    try (destruct (getenv_pass E) as [p1|]);
    try discriminate Hc.
  all: match type of Hc with
       | (if truthy ?a && truthy ?b then _ else _) = _ =>
           destruct (truthy a) eqn:Ha; destruct (truthy b) eqn:Hb;
           try discriminate Hc; cbn [andb] in Hc; inversion Hc; subst
       end.
  all: cbn [negb orb]; unfold smtp_send;
    match goal with |- context [smtp_accepts E ?m] =>
      destruct (smtp_accepts E m) end; reflexivity.
Qed.

(** X11.  [send_email] catches whatever is raised inside it: for every
    recipient and attachment it returns normally, shows one message, hands
    at most one message to the mail server, and leaves the workbook and
    the session state alone.  It reaches the mail server only with an
    address the checker accepts and with credentials. *)
Theorem send_email_never_raises (recipient csv : str) (w : World) :
  let run := send_email E recipient csv w in
  fst run = Ok tt /\
  book (snd run) = book w /\ manage_open (snd run) = manage_open w /\
  (exists m, page (snd run) = page w ++ [m]) /\
  (outbox (snd run) = outbox w \/
   exists s p, validate_email E recipient = true /\
               credentials E = Some (s, p) /\
               outbox (snd run) =
               outbox w ++ [{| mail_from := s; mail_to := recipient;
                               mail_attachment := csv |}]).
Proof.
  cbv zeta. destruct (validate_email E recipient) eqn:Hv.
  - destruct (credentials E) as [[s p]|] eqn:Hc.
    + pose proof (credentials_some recipient csv s p w Hv Hc) as H.
      cbv zeta in H. rewrite H. cbn [fst snd book page outbox manage_open].
      repeat split; eauto. right. exists s, p. auto.
    + rewrite (credentials_none recipient csv w Hv Hc).
      cbn [fst snd book page outbox manage_open]. repeat split; eauto.
  - rewrite (send_email_invalid E recipient csv w Hv).
    cbn [fst snd book page outbox manage_open]. repeat split; eauto.
Qed.



End SendEmail.



(** ** The download handler *)

Section Download.
Variable E : Env.

Lemma send_email_shape (recipient csv : str) (w : World) :
  exists m sent,
    send_email E recipient csv w =
    (Ok tt, {| book := book w; page := page w ++ [m];
               outbox := outbox w ++ sent; manage_open := manage_open w |}) /\
    m <> ErrFailedToSend /\
    (sent = [] \/
     exists s p, validate_email E recipient = true /\
                 credentials E = Some (s, p) /\
                 sent = [{| mail_from := s; mail_to := recipient;
                            mail_attachment := csv |}]).
Proof.
  destruct (validate_email E recipient) eqn:Hv.
  - destruct (credentials E) as [[s p]|] eqn:Hc.
    + pose proof (credentials_some E recipient csv s p w Hv Hc) as H.
      cbv zeta in H. rewrite H. eexists. eexists. split; [reflexivity|].
      split; [destruct (smtp_accepts E _); discriminate|].
      right. exists s, p. auto.
    + rewrite (credentials_none E recipient csv w Hv Hc).
      exists ErrNoCredentials, []. rewrite app_nil_r.
      split; [reflexivity|]. split; [discriminate | auto].
  - rewrite (send_email_invalid E recipient csv w Hv).
    exists ErrInvalidEmail, []. rewrite app_nil_r.
    split; [reflexivity|]. split; [discriminate | auto].
Qed.

(** What a confirmed request with an address does, in one equation: the
    send step, the line that says the list has been sent, and the log
    write, which raises when there is no log sheet. *)
Lemma download_confirmed (w : World) (df : DataFrame)
    (email_address blood_group : str) (selected_locations : list str) :
  table w = Ok df -> email_address <> [] ->
  exists m sent,
    send_email E email_address
      (csv_data E df blood_group selected_locations) w =
    (Ok tt, {| book := book w; page := page w ++ [m];
               outbox := outbox w ++ sent; manage_open := manage_open w |}) /\
    m <> ErrFailedToSend /\
    download_email_form E email_address blood_group selected_locations true w =
    (match book w with
     | Some _ => Ok tt
     | None => Raise AttributeError
     end,
     {| book := option_map
                  (fun b => {| sheet := sheet b;
                               log_sheet := log_sheet b ++
                                 [log_row E email_address blood_group
                                    selected_locations] |})
                  (book w);
        page := page w ++ [m; OkListSent email_address blood_group
                                (locations_text selected_locations) (now E)];
        outbox := outbox w ++ sent; manage_open := manage_open w |}).
Proof.
  intros Ht Hne.
  destruct (send_email_shape email_address
              (csv_data E df blood_group selected_locations) w)
    as (m & sent & Hs & Hm & _).
  exists m, sent. split; [exact Hs|]. split; [exact Hm|].
  unfold download_email_form, bind. rewrite get_donors_table, Ht.
  destruct email_address as [|c s]; [congruence|]. cbn [truthy negb].
  unfold catch, bind. rewrite Hs.
  unfold say, the_log_sheet, ret, set_log_sheet.
  cbn [fst snd book page outbox manage_open].
  destruct (book w) as [b|] eqn:Hb.
  - cbn [fst snd book page outbox manage_open option_map sheet log_sheet].
    rewrite update_next_row. rewrite <- app_assoc. reflexivity.
  - cbn [option_map]. rewrite <- app_assoc. reflexivity.
Qed.

(** X14.  The handler says that the list has been sent after every confirmed
    request with an address, whatever the send step did (an invalid
    address, missing credentials and a failed transport included): its
    line follows the one message of [send_email].  Since [send_email]
    never raises, the handler's own failure message is never shown. *)
Theorem download_always_reports_sent (w : World) (df : DataFrame)
    (email_address blood_group : str) (selected_locations : list str) :
  table w = Ok df -> email_address <> [] ->
  let run := download_email_form E email_address blood_group
               selected_locations true w in
  exists m,
    page (snd run) =
    page w ++ [m; OkListSent email_address blood_group
                    (locations_text selected_locations) (now E)] /\
    m <> ErrFailedToSend /\
    page (snd (send_email E email_address
                 (csv_data E df blood_group selected_locations) w)) =
    page w ++ [m].
Proof.
  intros Ht Hne. cbv zeta.
  destruct (download_confirmed w df email_address blood_group
              selected_locations Ht Hne) as (m & sent & Hs & Hm & Hrun).
  exists m. rewrite Hrun, Hs. cbn [snd page]. auto.
Qed.

(** X15.  A confirmed request with an accepted address, credentials, a server
    that takes the message and the spreadsheet connected ends normally:
    exactly one mail goes out, to the address, with the export of the
    filtered table as attachment, and one row with the request is appended
    to the log.  The donor sheet is not touched. *)
Theorem download_sends_and_logs (w : World) (b : Workbook) (df : DataFrame)
    (email_address blood_group : str) (selected_locations : list str)
    (s p : str) :
  book w = Some b -> table w = Ok df ->
  validate_email E email_address = true ->
  credentials E = Some (s, p) ->
  let m := {| mail_from := s; mail_to := email_address;
              mail_attachment :=
                to_csv (platform E)
                  (filtered_df df blood_group selected_locations) |} in
  smtp_accepts E m = true ->
  email_address <> [] ->
  download_email_form E email_address blood_group selected_locations true w =
  (Ok tt,
   {| book := Some {| sheet := sheet b;
                      log_sheet := log_sheet b ++
                        [[email_address; blood_group;
                          locations_text selected_locations; now E]] |};
      page := page w ++ [OkEmailSent;
                         OkListSent email_address blood_group
                           (locations_text selected_locations) (now E)];
      outbox := outbox w ++ [m]; manage_open := manage_open w |}).
Proof.
  intros Hb Ht Hv Hc m Hacc Hne.
  destruct (download_confirmed w df email_address blood_group
              selected_locations Ht Hne) as (m' & sent & Hs & _ & Hrun).
  rewrite Hrun. rewrite Hb. cbn [option_map].
  pose proof (credentials_some E email_address
                (csv_data E df blood_group selected_locations) s p w Hv Hc) as H.
  cbv zeta in H. unfold csv_data in H at 2 3. fold m in H. rewrite Hacc in H.
  rewrite H in Hs. inversion Hs as [[Hpage Hout]].
  apply app_inv_head in Hpage. apply app_inv_head in Hout.
  inversion Hpage. subst m' sent. reflexivity.
Qed.

(** X16.  Without a client the handler still runs the send step, on the export
    of the empty table, and says that the list has been sent; then the
    log write raises, as [log_sheet] is None. *)
Theorem download_offline_raises (w : World)
    (email_address blood_group : str) (selected_locations : list str) :
  book w = None -> email_address <> [] ->
  let run := download_email_form E email_address blood_group
               selected_locations true w in
  let sent := send_email E email_address (to_csv (platform E) []) w in
  fst run = Raise AttributeError /\
  book (snd run) = None /\
  outbox (snd run) = outbox (snd sent) /\
  page (snd run) =
    page (snd sent) ++ [OkListSent email_address blood_group
                          (locations_text selected_locations) (now E)].
Proof.
  intros Hb Hne. cbv zeta.
  assert (Ht : table w = Ok []) by (unfold table, get_donors; rewrite Hb; reflexivity).
  destruct (download_confirmed w [] email_address blood_group
              selected_locations Ht Hne) as (m & sent & Hs & _ & Hrun).
  rewrite Hrun, Hb.
  assert (Hcsv : csv_data E [] blood_group selected_locations =
                 to_csv (platform E) []).
  { unfold csv_data, filtered_df. cbn [filter].
    destruct (negb (str_eqb blood_group (u "All")));
    destruct (negb (existsb (str_eqb (u "All Locations")) selected_locations));
    destruct (negb (empty selected_locations)); reflexivity. }
  rewrite Hcsv in Hs. rewrite Hs.
  cbn [fst snd book page outbox option_map]. rewrite <- app_assoc. auto.
Qed.

End Download.

Lemma download_always_reports_sent_witness :
  let run := download_email_form env_ok (u "not-an-email") (u "All") []
               true two_donors in
  page (snd run) =
  [ErrInvalidEmail;
   OkListSent (u "not-an-email") (u "All") (u "All Locations")
     (u "2024-01-01 12:00:00")].
Proof.
  cbv zeta.
  destruct (download_always_reports_sent env_ok two_donors [ann; bob]
              (u "not-an-email") (u "All") [] eq_refl)
    as [m [H1 [_ H3]]]; [discriminate|].
  rewrite H1. vm_compute in H3. inversion H3. reflexivity.
Defined.

Lemma download_sends_and_logs_witness :
  download_email_form env_ok (u "ann@example.org") (u "A-") [u "Goa"; u "Agra"]
    true two_donors =
  (Ok tt,
   {| book := Some {| sheet := [expected_headers; cells ann; cells bob];
                      log_sheet :=
                        [log_headers;
                         [u "ann@example.org"; u "A-"; u "Goa, Agra";
                          u "2024-01-01 12:00:00"]] |};
      page := [OkEmailSent;
               OkListSent (u "ann@example.org") (u "A-") (u "Goa, Agra")
                 (u "2024-01-01 12:00:00")];
      outbox := [{| mail_from := u "bank@example.org";
                    mail_to := u "ann@example.org";
                    mail_attachment := to_csv Posix [bob] |}];
      manage_open := false |}).
Proof.
  apply (download_sends_and_logs env_ok two_donors _ [ann; bob]
           (u "ann@example.org") (u "A-") [u "Goa"; u "Agra"]
           (u "bank@example.org") (u "secret") eq_refl eq_refl eq_refl eq_refl
           eq_refl).
  discriminate.
Defined.

Lemma download_offline_raises_witness :
  let run := download_email_form env_ok (u "ann@example.org") (u "All") []
               true offline in
  fst run = Raise AttributeError /\
  outbox (snd run) = [{| mail_from := u "bank@example.org";
                         mail_to := u "ann@example.org";
                         mail_attachment :=
                           u "name,age,blood_group,contact,location"
                           ++ [newline] |}] /\
  page (snd run) =
  [OkEmailSent;
   OkListSent (u "ann@example.org") (u "All") (u "All Locations")
     (u "2024-01-01 12:00:00")].
Proof.
  cbv zeta.
  destruct (download_offline_raises env_ok offline (u "ann@example.org")
              (u "All") [] eq_refl) as [H1 [_ [H3 H4]]]; [discriminate|].
  split; [exact H1|]. split; [exact H3 | exact H4].
Defined.

(** ** The log is only appended to *)

(** X17.  No handler changes or removes a row of the log.  The download handler
    leaves the donor sheet as it is and appends at most one row, the
    request's, to the log; the add, update and delete handlers and the
    donor list leave the log as it is. *)
Theorem log_is_append_only {U : Unicode} (E : Env) (w : World) (b : Workbook) :
  book w = Some b ->
  (forall email_address blood_group selected_locations confirm_send,
     let w' := snd (download_email_form E email_address blood_group
                      selected_locations confirm_send w) in
     option_map sheet (book w') = Some (sheet b) /\
     (option_map log_sheet (book w') = Some (log_sheet b) \/
      option_map log_sheet (book w') =
      Some (log_sheet b ++ [log_row E email_address blood_group
                              selected_locations]))) /\
  (forall submitted name age blood_group contact location,
     option_map log_sheet
       (book (snd (add_donor_form submitted name age blood_group contact
                     location w))) = Some (log_sheet b)) /\
  (forall p apply new_name new_age new_blood new_contact new_location,
     option_map log_sheet
       (book (snd (manage_update p apply new_name new_age new_blood
                     new_contact new_location w))) = Some (log_sheet b)) /\
  (forall p confirm cancel,
     option_map log_sheet (book (snd (manage_delete p confirm cancel w))) =
     Some (log_sheet b)) /\
  book (snd (donor_list w)) = Some b.
Proof.
  intros Hb. split; [|split; [|split; [|split]]].
  - intros email bg sel confirm. cbv zeta.
    destruct (table w) as [df|e] eqn:Ht.
    + destruct email as [|c s].
      * unfold download_email_form, bind. rewrite get_donors_table, Ht.
        cbn. rewrite Hb. auto.
      * destruct confirm.
        -- destruct (download_confirmed E w df (c :: s) bg sel Ht)
             as (m & sent & _ & _ & Hrun); [discriminate|].
           rewrite Hrun, Hb. cbn. auto.
        -- unfold download_email_form, bind. rewrite get_donors_table, Ht.
           cbn. rewrite Hb. auto.
    + unfold download_email_form, bind. rewrite get_donors_table, Ht.
      cbn. rewrite Hb. auto.
  - intros submitted name age bg contact location.
    destruct (add_donor_form_cases submitted name age bg contact location w)
      as [Hc | (b' & df & a & Hb' & _ & _ & Hc)]; rewrite Hc.
    + rewrite Hb. reflexivity.
    + rewrite Hb in Hb'. inversion Hb'. reflexivity.
  - intros p apply n a g c l.
    destruct (manage_update_cases p apply n a g c l w)
      as [Hc | (b' & df & old & a' & Hb' & _ & _ & _ & _ & _ & _ & _ & _ & _
                & Hc & _)]; rewrite Hc.
    + rewrite Hb. reflexivity.
    + rewrite Hb in Hb'. inversion Hb'. reflexivity.
  - intros p confirm cancel.
    destruct (manage_delete_cases p confirm cancel w)
      as [Hc | (b' & df & Hb' & _ & _ & Hc)]; rewrite Hc.
    + rewrite Hb. reflexivity.
    + rewrite Hb in Hb'. inversion Hb'. reflexivity.
  - unfold donor_list, bind. rewrite get_donors_table.
    destruct (table w) as [[|d df]|e]; cbn; exact Hb.
Qed.

Lemma log_is_append_only_witness :
  let w' := snd (download_email_form env_ok (u "x") (u "O+") [u "Pune"] true
                   two_donors) in
  option_map sheet (book w') = Some [expected_headers; cells ann; cells bob] /\
  (option_map log_sheet (book w') = Some [log_headers] \/
   option_map log_sheet (book w') =
   Some ([log_headers] ++ [log_row env_ok (u "x") (u "O+") [u "Pune"]])).
Proof.
  cbv zeta.
  apply (proj1 (@log_is_append_only latin1 env_ok two_donors _ eq_refl)).
Defined.

(** ** The age as it is stored *)

Section StoredAge.
Context {U : Unicode}.

Ltac digit_case IH d k :=
  intros acc;
  change (uint_tokens (_ d)) with (TDigit k :: uint_tokens d);
  cbn [int_digits];
  destruct acc as [|a];
  [ exact (IH (N.pos (Z.to_pos k)))
  | replace (10 * Z.of_N (N.pos a) + k)
      with (Z.of_N (N.pos (Z.to_pos k + 10 * a))) by lia;
    exact (IH _) ].

(** Reading the decimal writing of a number, digit by digit. *)
Lemma int_digits_uint (d : Decimal.uint) : forall acc : N,
  int_digits (Z.of_N acc) (uint_tokens d) =
  Some (Z.of_N match acc with
               | N0 => Pos.of_uint d
               | Npos a => Npos (Pos.of_uint_acc d a)
               end).
Proof.
  induction d as [|d IH|d IH|d IH|d IH|d IH|d IH|d IH|d IH|d IH|d IH].
  - intros [|a]; reflexivity.
  - intros acc.
    change (uint_tokens (Decimal.D0 d)) with (TDigit 0 :: uint_tokens d).
    cbn [int_digits]. destruct acc as [|a].
    + exact (IH 0%N).
    + replace (10 * Z.of_N (N.pos a) + 0) with (Z.of_N (N.pos (10 * a))) by lia.
      exact (IH _).
  - digit_case IH d 1.
  - digit_case IH d 2.
  - digit_case IH d 3.
  - digit_case IH d 4.
  - digit_case IH d 5.
  - digit_case IH d 6.
  - digit_case IH d 7.
  - digit_case IH d 8.
  - digit_case IH d 9.
Qed.

Lemma uint_tokens_digits (d : Decimal.uint) :
  Forall (fun c => in_range 48 57 c = true) (u (NilEmpty.string_of_uint d)).
Proof.
  induction d; cbn [NilEmpty.string_of_uint u list_ascii_of_string map];
    constructor; (reflexivity || assumption).
Qed.

Lemma int_literal_first_digit (s : str) (k : Z) (r : list tok) :
  map tok_of s = TDigit k :: r ->
  int_literal s = int_digits 0 (map tok_of s).
Proof.
  intros H. unfold int_literal. rewrite H. cbn [skip_space int_digits].
  replace (10 * 0 + k) with k by lia.
  destruct (int_digits k r); reflexivity.
Qed.

Lemma int_literal_uint (d : Decimal.uint) :
  d <> Decimal.Nil ->
  int_literal (u (NilEmpty.string_of_uint d)) = Some (Z.of_N (Pos.of_uint d)).
Proof.
  intros Hd.
  assert (H : exists k r, map tok_of (u (NilEmpty.string_of_uint d)) =
                          TDigit k :: r)
    by (destruct d; [congruence | ..]; eexists; eexists; reflexivity).
  destruct H as (k & r & H).
  rewrite (int_literal_first_digit _ k r H).
  exact (int_digits_uint d 0%N).
Qed.

Ltac count_case IH d k :=
  change (uint_tokens (_ d)) with (TDigit k :: uint_tokens d);
  cbn [filter is_tdigit List.length Decimal.nb_digits];
  rewrite IH; reflexivity.

(** The digits [int] counts in the decimal writing of a number. *)
Lemma digits_uint_tokens (d : Decimal.uint) :
  List.length (filter is_tdigit (uint_tokens d)) = Decimal.nb_digits d.
Proof.
  induction d as [|d IH|d IH|d IH|d IH|d IH|d IH|d IH|d IH|d IH|d IH].
  - reflexivity.
  - count_case IH d 0.
  - count_case IH d 1.
  - count_case IH d 2.
  - count_case IH d 3.
  - count_case IH d 4.
  - count_case IH d 5.
  - count_case IH d 6.
  - count_case IH d 7.
  - count_case IH d 8.
  - count_case IH d 9.
Qed.

Lemma int_str_digits_uint (d : Decimal.uint) :
  int_str_digits (u (NilEmpty.string_of_uint d)) =
  Z.of_nat (Decimal.nb_digits d).
Proof.
  unfold int_str_digits. f_equal. exact (digits_uint_tokens d).
Qed.

(** [int(str(n)) == n] for a number that is not negative and whose decimal
    writing is within the limit of [int], for every character database:
    the decimal writing is ASCII. *)
Lemma int_str_of_int (n : Z) :
  0 <= n -> int_str_digits (str_of_int n) <= int_max_str_digits ->
  int (str_of_int n) = Ok n.
Proof.
  intros Hn Hlen. apply Z.ltb_ge in Hlen.
  unfold int. rewrite Hlen.
  destruct n as [|p|p]; [reflexivity | | lia].
  unfold str_of_int. rewrite int_literal_uint.
  - rewrite DecimalPos.Unsigned.of_to. reflexivity.
  - intros H. pose proof (DecimalPos.Unsigned.of_to p) as Hp.
    rewrite H in Hp. discriminate.
Qed.

Lemma uint_tokens_digit_of (v : Z) (d : Decimal.uint) :
  0 <= v <= 9 ->
  uint_tokens (decimal_digit_of v d) = TDigit v :: uint_tokens d.
Proof.
  intros Hv.
  assert (H : v = 0 \/ v = 1 \/ v = 2 \/ v = 3 \/ v = 4 \/ v = 5 \/
              v = 6 \/ v = 7 \/ v = 8 \/ v = 9) by lia.
  destruct H as [->|[->|[->|[->|[->|[->|[->|[->|[->| ->]]]]]]]]];
    reflexivity.
Qed.

(** A string of decimal digits is read by [int] as the numeral it writes. *)
Lemma tokens_of_digits (L : UnicodeLaws U) (V : DigitValues U) (s : str) :
  forallb ch_isdigit s = true -> forallb is_decimal s = true ->
  map tok_of s = uint_tokens (uint_of_digits s).
Proof.
  induction s as [|c s IH]; intros Hd Hdec; [reflexivity|].
  cbn [forallb] in Hd, Hdec.
  apply andb_prop in Hd. destruct Hd as [Hc Hd].
  apply andb_prop in Hdec. destruct Hdec as [Hcd Hdec].
  cbn [map uint_of_digits].
  rewrite (tok_of_digit L c Hc).
  unfold is_decimal in Hcd. unfold digit_value.
  destruct (ch_todecimal c) as [v|] eqn:Hv; [|discriminate].
  rewrite (uint_tokens_digit_of v _ (V c v Hv)).
  rewrite (IH Hd Hdec). reflexivity.
Qed.

(** The number [int] reads from a digit string is not negative, and its
    decimal writing has no more digits than the string: what [int]
    accepts, [str] writes within the limit of [int]. *)
Lemma stored_digits_bound (L : UnicodeLaws U) (V : DigitValues U)
    (age : str) (a : Z) :
  isdigit age = true -> int age = Ok a ->
  0 <= a /\ int_str_digits (str_of_int a) <= int_max_str_digits.
Proof.
  intros Hd Ha.
  rewrite (int_digit_string L _ Hd) in Ha.
  destruct (forallb is_decimal age) eqn:Hdec; [|discriminate].
  destruct (Z.ltb_spec int_max_str_digits (len age)) as [Hlen|Hlen];
    [discriminate|].
  inversion Ha as [Hnum]. clear Ha.
  assert (Hdig : forallb ch_isdigit age = true)
    by (unfold isdigit in Hd; apply andb_prop in Hd; apply Hd).
  pose proof (tokens_of_digits L V age Hdig Hdec) as Htok.
  remember (uint_of_digits age) as D eqn:HD.
  assert (Hval : number_of age = Z.of_N (Pos.of_uint D)).
  { pose proof (int_digits_digits L age 0 Hdig) as H1.
    rewrite Hdec, Htok in H1.
    assert (H2 : int_digits 0 (uint_tokens D) = Some (Z.of_N (Pos.of_uint D)))
      by exact (int_digits_uint D 0%N).
    rewrite H2 in H1. unfold number_of. congruence. }
  assert (Hcount : len age = Z.of_nat (Decimal.nb_digits D)).
  { rewrite <- (int_str_digits_digits L age Hdig Hdec).
    unfold int_str_digits. rewrite Htok, digits_uint_tokens. reflexivity. }
  assert (Hnil : D <> Decimal.Nil).
  { intros HN. rewrite HN in Htok.
    change (uint_tokens Decimal.Nil) with (@nil tok) in Htok.
    destruct age; [discriminate Hd | discriminate Htok]. }
  rewrite Hval. split; [lia|].
  destruct (Pos.of_uint D) as [|p] eqn:Hp.
  - change (str_of_int (Z.of_N 0))
      with (u (NilEmpty.string_of_uint (Decimal.D0 Decimal.Nil))).
    rewrite int_str_digits_uint. vm_compute. discriminate.
  - pose proof (DecimalPos.Unsigned.to_of D) as Hto. rewrite Hp in Hto.
    change (N.to_uint (N.pos p)) with (Pos.to_uint p) in Hto.
    change (str_of_int (Z.of_N (N.pos p)))
      with (u (NilEmpty.string_of_uint (Pos.to_uint p))).
    rewrite int_str_digits_uint, Hto.
    pose proof (DecimalFacts.nb_digits_unorm D Hnil) as Hle.
    lia.
Qed.

Lemma isdigit_str_of_int (L : UnicodeLaws U) (n : Z) :
  0 <= n -> isdigit (str_of_int n) = true.
Proof.
  intros Hn.
  assert (H : forall d, d <> Decimal.Nil ->
            isdigit (u (NilEmpty.string_of_uint d)) = true).
  { intros d Hd. unfold isdigit. apply andb_true_intro. split.
    - destruct d; [congruence | ..]; reflexivity.
    - apply forallb_forall. intros c Hc.
      pose proof (uint_tokens_digits d) as Hall. rewrite Forall_forall in Hall.
      specialize (Hall c Hc). unfold in_range in Hall.
      rewrite (ascii_isdigit U L c); [exact Hall|].
      apply andb_prop in Hall. destruct Hall as [_ H2].
      apply N.leb_le in H2. lia. }
  destruct n as [|p|p]; [| | lia].
  - apply (H (Decimal.D0 Decimal.Nil)). discriminate.
  - apply H. intros Hd. pose proof (DecimalPos.Unsigned.of_to p) as Hp.
    rewrite Hd in Hp. discriminate.
Qed.

(** X18.  The age the add and the update path store is [int(age)], read back
    from the sheet as its decimal writing.  That string is a digit string
    and [int] of it is the same integer: a stored age passes the guard of
    the update path unchanged, and the age of an accepted submission
    passes the age validator again. *)
Theorem stored_age_reads_back (L : UnicodeLaws U) (V : DigitValues U)
    (age : str) (a : Z) :
  isdigit age = true -> int age = Ok a ->
  isdigit (str_of_int a) = true /\
  int (str_of_int a) = Ok a /\
  age_valid (str_of_int a) = age_valid age.
Proof.
  intros Hd Ha.
  destruct (stored_digits_bound L V age a Hd Ha) as [Hpos Hlen].
  split; [apply (isdigit_str_of_int L); exact Hpos|].
  split; [apply int_str_of_int; assumption|].
  unfold age_valid. rewrite (isdigit_str_of_int L a Hpos), Hd.
  rewrite (int_str_of_int a Hpos Hlen), Ha.
  destruct age; [discriminate|].
  destruct (str_of_int a) eqn:Hs; [|reflexivity].
  pose proof (isdigit_str_of_int L a Hpos) as Hi. rewrite Hs in Hi. discriminate.
Qed.

End StoredAge.

Lemma latin1_digit_values : DigitValues latin1.
Proof.
  intros c d. simpl. unfold latin1_todecimal, in_range.
  range_cases; simpl; intros Hd; inversion Hd; lia.
Qed.

Lemma stored_age_reads_back_witness :
  @isdigit latin1 (u "0042") = true /\
  @int latin1 (u "0042") = Ok 42 /\
  str_of_int 42 = u "42" /\
  @isdigit latin1 (str_of_int 42) = true /\
  @int latin1 (str_of_int 42) = Ok 42 /\
  @age_valid latin1 (str_of_int 42) = @age_valid latin1 (u "0042").
Proof.
  split; [reflexivity|]. split; [reflexivity|]. split; [reflexivity|].
  exact (@stored_age_reads_back latin1 latin1_laws latin1_digit_values
           (u "0042") 42 eq_refl eq_refl).
Defined.

(** ** The name as it is stored *)

Section Words.
Context {U : Unicode}.

Lemma lstrip_prefix (s : str) :
  exists pre, s = pre ++ lstrip s /\ blank pre.
Proof.
  induction s as [|c s [pre [Hs Hpre]]].
  - exists []. split; reflexivity.
  - cbn [lstrip]. destruct (ch_isspace c) eqn:Hc.
    + exists (c :: pre). split.
      * cbn [app]. f_equal. exact Hs.
      * unfold blank. cbn [forallb]. rewrite Hc. exact Hpre.
    + exists []. split; reflexivity.
Qed.

Lemma blank_rev (s : str) : blank s -> blank (rev s).
Proof.
  unfold blank. rewrite !forallb_forall. intros H c Hc.
  apply H. apply in_rev. exact Hc.
Qed.

Lemma rstrip_suffix (s : str) :
  exists post, s = rstrip s ++ post /\ blank post.
Proof.
  unfold rstrip. destruct (lstrip_prefix (rev s)) as [pre [Hs Hpre]].
  exists (rev pre). split.
  - rewrite <- rev_app_distr, <- Hs, rev_involutive. reflexivity.
  - apply blank_rev. exact Hpre.
Qed.

Lemma split_from_blank (s : str) :
  blank s -> split_from [] s = [].
Proof.
  unfold blank. induction s as [|c s IH]; [reflexivity|].
  cbn [forallb split_from]. intros H. apply andb_prop in H.
  destruct H as [Hc Hs]. rewrite Hc. apply IH, Hs.
Qed.

Lemma split_from_leading (pre s : str) :
  blank pre -> split_from [] (pre ++ s) = split_from [] s.
Proof.
  unfold blank. induction pre as [|c pre IH]; [reflexivity|].
  cbn [forallb app split_from]. intros H. apply andb_prop in H.
  destruct H as [Hc Hs]. rewrite Hc. apply IH, Hs.
Qed.

Lemma split_from_trailing (post s : str) : forall cur,
  blank post -> split_from cur (s ++ post) = split_from cur s.
Proof.
  intros cur Hpost. revert cur. induction s as [|c s IH]; intros cur.
  - cbn [app]. destruct post as [|c post]; [reflexivity|].
    unfold blank in Hpost. cbn [forallb] in Hpost.
    apply andb_prop in Hpost. destruct Hpost as [Hc Hpost].
    cbn [split_from]. rewrite Hc, (split_from_blank post Hpost).
    destruct cur; reflexivity.
  - cbn [app split_from]. rewrite !IH. reflexivity.
Qed.

Lemma split_strip (s : str) : split (strip s) = split s.
Proof.
  unfold split, strip.
  destruct (lstrip_prefix s) as [pre [Hs Hpre]].
  destruct (rstrip_suffix (lstrip s)) as [post [Hs' Hpost]].
  rewrite Hs at 2. rewrite (split_from_leading pre _ Hpre).
  rewrite Hs' at 2. rewrite (split_from_trailing post _ [] Hpost).
  reflexivity.
Qed.

Lemma split_from_words (s : str) : forall cur,
  no_space cur ->
  Forall (fun p => p <> [] /\ no_space p) (split_from cur s) /\
  List.concat (split_from cur s) =
  rev cur ++ filter (fun c => negb (ch_isspace c)) s.
Proof.
  assert (R : forall cur, no_space cur -> no_space (rev cur)).
  { unfold no_space. intros cur H. rewrite forallb_forall in *.
    intros c Hc. apply H, in_rev, Hc. }
  assert (N : forall (c : N) cur, rev (c :: cur) <> []).
  { intros c cur H. apply (f_equal (@List.length N)) in H.
    rewrite length_rev in H. discriminate. }
  induction s as [|c s IH]; intros cur Hcur.
  - cbn [split_from filter]. rewrite app_nil_r. destruct cur as [|x cur].
    + split; [constructor | reflexivity].
    + split; [|cbn [List.concat]; apply app_nil_r].
      constructor; [|constructor]. split; [apply N | apply R, Hcur].
  - cbn [split_from filter]. destruct (ch_isspace c) eqn:Hc; cbn [negb].
    + destruct (IH [] eq_refl) as [H1 H2]. destruct cur as [|x cur].
      * split; [exact H1 | exact H2].
      * split.
        -- constructor; [|exact H1]. split; [apply N | apply R, Hcur].
        -- cbn [List.concat]. rewrite H2. reflexivity.
    + assert (Hcur' : no_space (c :: cur)).
      { unfold no_space. cbn [forallb]. rewrite Hc. exact Hcur. }
      destruct (IH (c :: cur) Hcur') as [H1 H2]. split; [exact H1|].
      rewrite H2. cbn [rev]. rewrite <- app_assoc. reflexivity.
Qed.

(** X19.  The stored name depends on the words of the typed name only.  The
    words that [split] finds are not empty, have no space in them, and
    together are the typed name without its spaces; the [strip] before
    the [split] changes nothing; and spaces before and after the name do
    not change what is stored. *)
Theorem normal_name_words (name : str) :
  Forall (fun p => p <> [] /\ no_space p) (split name) /\
  List.concat (split name) = filter (fun c => negb (ch_isspace c)) name /\
  split (strip name) = split name /\
  normal_name name = join (u " ") (map capitalize (split name)) /\
  (forall pre post, blank pre -> blank post ->
     normal_name (pre ++ name ++ post) = normal_name name).
Proof.
  destruct (split_from_words name [] eq_refl) as [H1 H2].
  split; [exact H1|]. split; [exact H2|].
  split; [apply split_strip|].
  split; [unfold normal_name; rewrite split_strip; reflexivity|].
  intros pre post Hpre Hpost. unfold normal_name. rewrite !split_strip.
  unfold split. rewrite (split_from_leading pre _ Hpre).
  rewrite (split_from_trailing post _ [] Hpost). reflexivity.
Qed.

(** X20.  A name of spaces only passes the name validator, and the add path
    stores it as the empty name: on a donor sheet with its header row, a
    submission with such a name and otherwise valid fields, colliding with
    no row, adds a record whose name is empty. *)
Theorem blank_name_is_stored_empty (w : World) (b : Workbook)
    (df : DataFrame) (name age blood_group contact location : str)
    (v : Validity) :
  name <> [] -> blank name ->
  book w = Some b -> sheet b <> [] -> donor_sheet (sheet b) ->
  table w = Ok df ->
  validate name age blood_group contact location = Ok v ->
  v_age v && v_blood_group v && v_contact v && v_location v = true ->
  filter (same_donor [] contact) df = [] ->
  name_valid name = true /\ normal_name name = [] /\
  exists a, int age = Ok a /\
    table (snd (add_donor_form true name age blood_group contact location w)) =
    Ok (df ++ [{| col_name := []; col_age := str_of_int a;
                  col_blood_group := blood_group; col_contact := contact;
                  col_location := normal_location location |}]).
Proof.
  intros Hne Hblank Hb Hs Hd Ht Hv Hrest Hf.
  assert (Hnv : name_valid name = true).
  { unfold name_valid. destruct name as [|c s]; [congruence|]. cbn [truthy andb].
    unfold blank in Hblank. rewrite forallb_forall in *. intros x Hx.
    rewrite (Hblank x Hx). apply orb_true_r. }
  assert (Hnn : normal_name name = []).
  { unfold normal_name. rewrite split_strip. unfold split.
    rewrite (split_from_blank name Hblank). reflexivity. }
  split; [exact Hnv|]. split; [exact Hnn|].
  assert (Ha : all_valid v = true).
  { unfold validate in Hv. destruct (age_valid age); [|discriminate].
    cbn [rbind] in Hv. inversion Hv. subst v.
    cbn [all_valid v_age v_blood_group v_contact v_location] in *.
    rewrite Hnv. cbn [andb]. rewrite <- !andb_assoc in *. exact Hrest. }
  rewrite <- Hnn in Hf.
  destruct (add_donor_form_table w b df name age blood_group contact
              location v Hb Hs Hd Ht Hv Ha Hf) as [a [Hint H]].
  cbv zeta in H. destruct H as (_ & _ & H3).
  exists a. split; [exact Hint|]. rewrite H3, Hnn. reflexivity.
Qed.

End Words.

Lemma normal_name_words_witness :
  @blank latin1 (u "  ") /\ @blank latin1 [9; 160]%N /\
  @normal_name latin1 (u "  " ++ u "ann  mary lee" ++ [9; 160]%N) =
  @normal_name latin1 (u "ann  mary lee") /\
  @normal_name latin1 (u "ann  mary lee") = u "Ann Mary Lee".
Proof.
  split; [reflexivity|]. split; [reflexivity|]. split; [|reflexivity].
  apply (proj2 (proj2 (proj2 (proj2
           (@normal_name_words latin1 (u "ann  mary lee")))))); reflexivity.
Defined.

Lemma blank_name_is_stored_empty_witness :
  @name_valid latin1 (u "   ") = true /\
  table (snd (@add_donor_form latin1 true (u "   ") (u "30") (u "O+")
                (u "9000000003") (u "Agra") two_donors)) =
  Ok [ann; bob; donor "" "30" "O+" "9000000003" "Agra"].
Proof.
  edestruct (@blank_name_is_stored_empty latin1 two_donors
               {| sheet := [expected_headers; cells ann; cells bob];
                  log_sheet := [log_headers] |} [ann; bob]
               (u "   ") (u "30") (u "O+") (u "9000000003") (u "Agra"))
    as [H1 [_ [a [Ha H3]]]].
  - discriminate.
  - reflexivity.
  - reflexivity.
  - discriminate.
  - repeat constructor.
  - reflexivity.
  - reflexivity.
  - reflexivity.
  - reflexivity.
  - split; [exact H1|]. rewrite H3. vm_compute in Ha. inversion Ha. reflexivity.
Defined.

(** ** What the donor list gives away *)

Lemma mask_contact_uniform (x : str) :
  mask_contact x = firstn (List.length x - 4) x ++ u "****".
Proof.
  unfold mask_contact, len.
  destruct (Z.ltb_spec 4 (Z.of_nat (List.length x))) as [H|H]; [reflexivity|].
  replace (List.length x - 4)%nat with 0%nat by lia. reflexivity.
Qed.

(** X21.  The mask hides the last four characters and nothing else.  What is
    shown has the length of the contact, or four characters if the contact
    is shorter; and two contacts are shown alike exactly when they agree
    on all but their last four characters. *)
Theorem mask_contact_hides_last_four (x y : str) :
  List.length (mask_contact x) = Nat.max 4 (List.length x) /\
  (mask_contact x = mask_contact y <->
   firstn (List.length x - 4) x = firstn (List.length y - 4) y).
Proof.
  rewrite !mask_contact_uniform. split.
  - rewrite length_app, length_firstn. simpl List.length. lia.
  - split.
    + apply app_inv_tail.
    + intros ->. reflexivity.
Qed.

Example mask_contact_same_prefix :
  mask_contact (u "9876543210") = mask_contact (u "9876549999").
Proof. reflexivity. Qed.

(** ** The unused gateway function [add_donor] *)

(** X22.  [add_donor] appends whatever it is given, without the duplicate check
    of the form handler: on a donor sheet with its header row the table
    read afterwards is the old one followed by the new record, and when a
    row of the table already has the record's name (up to case) and
    contact the table is no longer unique.  Without a client it does
    nothing. *)
Theorem add_donor_appends_unchecked {U : Unicode} (w : World)
    (name age blood_group contact location : str) :
  let d := {| col_name := name; col_age := age; col_blood_group := blood_group;
              col_contact := contact; col_location := location |} in
  let run := add_donor name age blood_group contact location w in
  fst run = Ok tt /\
  (book w = None -> snd run = w) /\
  (forall b df,
     book w = Some b -> sheet b <> [] -> donor_sheet (sheet b) ->
     table w = Ok df ->
     table (snd run) = Ok (df ++ [d]) /\
     ((exists d0, In d0 df /\ identity d0 = identity d) ->
      ~ unique (df ++ [d]))).
Proof.
  cbv zeta. unfold add_donor.
  destruct (book w) as [b|] eqn:Hb.
  - split; [reflexivity|]. split; [discriminate|].
    intros b0 df Hb0 Hne Hs Ht. inversion Hb0. subst b0. split.
    + destruct (donor_sheet_table w b df Hb Hs Ht)
        as [[Hnil _] | [h [Hh Hsheet]]]; [congruence|].
      eapply table_of_donor_sheet with (header := h).
      * unfold set_sheet. cbn [snd book]. rewrite Hb. reflexivity.
      * exact Hh.
      * cbn [sheet]. unfold append_row. rewrite Hsheet. cbn [app].
        rewrite map_app. reflexivity.
    + intros [d0 [Hin Hid]] Hu. unfold unique in Hu.
      rewrite map_app in Hu. cbn [map] in Hu.
      apply NoDup_remove_2 in Hu. apply Hu. rewrite app_nil_r.
      rewrite <- Hid. apply in_map. exact Hin.
  - split; [reflexivity|]. split; [reflexivity|].
    intros b df Hb0. discriminate.
Qed.

Lemma add_donor_appends_unchecked_witness :
  let run := add_donor (u "ANN LEE") (u "99") (u "O+") (u "9876543210")
               (u "Goa") two_donors in
  let d := donor "ANN LEE" "99" "O+" "9876543210" "Goa" in
  donor_sheet [expected_headers; cells ann; cells bob] /\
  table (snd run) = Ok [ann; bob; d] /\
  ~ @unique latin1 [ann; bob; d].
Proof.
  cbv zeta. split; [repeat constructor|].
  destruct (@add_donor_appends_unchecked latin1 two_donors (u "ANN LEE")
              (u "99") (u "O+") (u "9876543210") (u "Goa")) as [_ [_ H]].
  cbv zeta in H.
  destruct (H {| sheet := [expected_headers; cells ann; cells bob];
                 log_sheet := [log_headers] |} [ann; bob] eq_refl)
    as [H1 H2].
  - discriminate.
  - repeat constructor.
  - reflexivity.
  - split; [exact H1|]. apply H2. exists ann. split; [left|]; reflexivity.
Defined.

(** ** Connecting to the spreadsheet *)

Lemma unescape_newlines_head (c : N) (r : str) :
  (exists r', unescape_newlines (c :: r) = c :: r') \/
  (c = backslash /\ exists r', unescape_newlines (c :: r) = newline :: r').
Proof.
  destruct r as [|c' r']; [left; exists []; reflexivity|].
  change (unescape_newlines (c :: c' :: r'))
    with (if (c =? backslash)%N && (c' =? letter_n)%N
          then newline :: unescape_newlines r'
          else c :: unescape_newlines (c' :: r')).
  destruct ((c =? backslash)%N && (c' =? letter_n)%N) eqn:H.
  - right. apply andb_prop in H. destruct H as [H _].
    apply N.eqb_eq in H. eauto.
  - left. eauto.
Qed.

Lemma unescape_newlines_cons (c c' : N) (r : str) :
  unescape_newlines (c :: c' :: r) =
  if (c =? backslash)%N && (c' =? letter_n)%N
  then newline :: unescape_newlines r
  else c :: unescape_newlines (c' :: r).
Proof. reflexivity. Qed.

Lemma has_escaped_newline_cons (c c' : N) (r : str) :
  has_escaped_newline (c :: c' :: r) =
  ((c =? backslash)%N && (c' =? letter_n)%N) || has_escaped_newline (c' :: r).
Proof. reflexivity. Qed.

Lemma unescape_newlines_clean_upto (n : nat) : forall s,
  (List.length s <= n)%nat -> has_escaped_newline (unescape_newlines s) = false.
Proof.
  induction n as [|n IH]; intros s Hs.
  - destruct s; [reflexivity | simpl in Hs; lia].
  - destruct s as [|c [|c' r]]; [reflexivity | reflexivity |].
    rewrite unescape_newlines_cons.
    destruct ((c =? backslash)%N && (c' =? letter_n)%N) eqn:H.
    + assert (Hr : has_escaped_newline (unescape_newlines r) = false)
        by (apply IH; simpl in Hs; lia).
      destruct (unescape_newlines r) as [|x y] eqn:Hu; [reflexivity|].
      rewrite has_escaped_newline_cons, Hr. reflexivity.
    + assert (Hr : has_escaped_newline (unescape_newlines (c' :: r)) = false)
        by (apply IH; simpl in *; lia).
      destruct (unescape_newlines_head c' r) as [[r' Hu] | [Hc [r' Hu]]];
        rewrite Hu in *; rewrite has_escaped_newline_cons, Hr, orb_false_r.
      * exact H.
      * change (newline =? letter_n)%N with false. apply andb_false_r.
Qed.

Lemma unescape_newlines_id_upto (n : nat) : forall s,
  (List.length s <= n)%nat -> has_escaped_newline s = false ->
  unescape_newlines s = s.
Proof.
  induction n as [|n IH]; intros s Hs Hc.
  - destruct s; [reflexivity | simpl in Hs; lia].
  - destruct s as [|c [|c' r]]; [reflexivity | reflexivity |].
    rewrite has_escaped_newline_cons in Hc. apply orb_false_elim in Hc.
    destruct Hc as [H1 H2]. rewrite unescape_newlines_cons, H1.
    f_equal. apply IH; [simpl in *; lia | exact H2].
Qed.

Lemma lookup_store_same (k : str) (v : value) (d : dict) :
  lookup k (store k v d) = Some v.
Proof.
  induction d as [|[k' v'] d IH]; cbn [store lookup].
  - rewrite str_eqb_refl. reflexivity.
  - destruct (str_eqb k' k) eqn:H; cbn [lookup].
    + rewrite str_eqb_refl. reflexivity.
    + rewrite H. exact IH.
Qed.

Lemma lookup_store_other (k k' : str) (v : value) (d : dict) :
  k' <> k -> lookup k' (store k v d) = lookup k' d.
Proof.
  intros Hne. induction d as [|[k0 v0] d IH]; cbn [store lookup].
  - assert (str_eqb k k' = false) by (apply str_eqb_neq; congruence).
    rewrite H. reflexivity.
  - destruct (str_eqb k0 k) eqn:H; cbn [lookup].
    + apply str_eqb_eq in H. subst k0.
      assert (H : str_eqb k k' = false) by (apply str_eqb_neq; congruence).
      rewrite H. reflexivity.
    + destruct (str_eqb k0 k'); [reflexivity | exact IH].
Qed.

(** X23.  The private key, made ready.  After the replacement no backslash
    followed by the letter n is left in the key, a key without one comes
    out as it went in, and doing the replacement again changes nothing. *)
Theorem unescape_newlines_clean (key : str) :
  has_escaped_newline (unescape_newlines key) = false /\
  (has_escaped_newline key = false -> unescape_newlines key = key) /\
  unescape_newlines (unescape_newlines key) = unescape_newlines key.
Proof.
  assert (H : has_escaped_newline (unescape_newlines key) = false)
    by (apply (unescape_newlines_clean_upto (List.length key)); lia).
  split; [exact H|]. split.
  - apply (unescape_newlines_id_upto (List.length key)). lia.
  - apply (unescape_newlines_id_upto (List.length (unescape_newlines key)));
      [lia | exact H].
Qed.

Lemma unescape_newlines_clean_witness :
  has_escaped_newline (u "-----BEGIN-----") = false /\
  unescape_newlines (u "-----BEGIN-----") = u "-----BEGIN-----".
Proof.
  split; [reflexivity|].
  apply (proj1 (proj2 (unescape_newlines_clean (u "-----BEGIN-----")))).
  reflexivity.
Defined.

Example unescape_newlines_pem :
  unescape_newlines ([45; 45; 92; 110; 77; 73; 73; 92; 92; 110; 92]%N) =
  [45; 45; 10; 77; 73; 73; 92; 10; 92]%N.
Proof. reflexivity. Qed.

(** X24.  [get_gsheet_client] gives a client in exactly one case:
    credentials are found (the secrets section, or else the JSON of the
    environment variable), they hold a string under [private_key], and the
    authorization takes them with that key unescaped; in that case it
    gives the client of the authorization and shows nothing, and in no
    other case does it give a client.  The credentials the authorization
    gets have the unescaped key under [private_key] and every other entry
    as it was.  When no client is given exactly one error line is shown,
    and it is the line for missing credentials exactly when there is no
    secrets section and the environment variable is unset or empty. *)
Theorem get_gsheet_client_outcomes {Client : Type} (cfg : Config Client) :
  (forall client msgs,
     get_gsheet_client cfg = (Some client, msgs) <->
     msgs = [] /\
     exists d key,
       found_credentials cfg = Some d /\
       lookup (u "private_key") d = Some (VStr key) /\
       authorize cfg
         (store (u "private_key") (VStr (unescape_newlines key)) d) =
       Some client) /\
  (forall d key,
     let d' := store (u "private_key") (VStr (unescape_newlines key)) d in
     lookup (u "private_key") d' = Some (VStr (unescape_newlines key)) /\
     has_escaped_newline (unescape_newlines key) = false /\
     (forall k, k <> u "private_key" -> lookup k d' = lookup k d)) /\
  (forall msgs,
     get_gsheet_client cfg = (None, msgs) -> exists m, msgs = [m]) /\
  (get_gsheet_client cfg = (None, [ErrNoGcpCredentials]) <->
   secrets_gcp cfg = NoEntry /\
   (getenv_gcp_json cfg = None \/ getenv_gcp_json cfg = Some [])).
Proof.
  assert (C : forall d client msgs,
    match lookup (u "private_key") d with
    | None => (None, [ErrFailedToConnect KeyError])
    | Some VOther => (None, [ErrFailedToConnect NoReplace])
    | Some (VStr key) =>
        match authorize cfg
                (store (u "private_key") (VStr (unescape_newlines key)) d) with
        | Some c => (Some c, [])
        | None => (None, [ErrFailedToConnect Refused])
        end
    end = (Some client, msgs) <->
    msgs = [] /\
    exists key,
      lookup (u "private_key") d = Some (VStr key) /\
      authorize cfg (store (u "private_key") (VStr (unescape_newlines key)) d)
      = Some client).
  { intros d client msgs. split.
    - intros H.
      destruct (lookup (u "private_key") d) as [[key|]|]; try discriminate.
      destruct (authorize cfg _) as [c|] eqn:Ha; try discriminate.
      inversion H. subst. split; [reflexivity|]. exists key. auto.
    - intros [-> [key [Hk Ha]]]. rewrite Hk, Ha. reflexivity. }
  assert (N : forall d msgs,
    match lookup (u "private_key") d with
    | None => (None, [ErrFailedToConnect KeyError])
    | Some VOther => (None, [ErrFailedToConnect NoReplace])
    | Some (VStr key) =>
        match authorize cfg
                (store (u "private_key") (VStr (unescape_newlines key)) d) with
        | Some c => (Some c, [])
        | None => (None, [ErrFailedToConnect Refused])
        end
    end = (@None Client, msgs) -> exists m, msgs = [m]).
  { intros d msgs H.
    destruct (lookup (u "private_key") d) as [[key|]|];
      try (inversion H; eauto; fail).
    destruct (authorize cfg _); inversion H; eauto. }
  assert (E : forall d,
    match lookup (u "private_key") d with
    | None => (None, [ErrFailedToConnect KeyError])
    | Some VOther => (None, [ErrFailedToConnect NoReplace])
    | Some (VStr key) =>
        match authorize cfg
                (store (u "private_key") (VStr (unescape_newlines key)) d) with
        | Some c => (Some c, [])
        | None => (None, [ErrFailedToConnect Refused])
        end
    end <> (@None Client, [ErrNoGcpCredentials])).
  { intros d H.
    destruct (lookup (u "private_key") d) as [[key|]|]; try discriminate.
    destruct (authorize cfg _); discriminate. }
  assert (O : forall d client (msgs : list connect_msg),
    (msgs = [] /\
     exists key,
       lookup (u "private_key") d = Some (VStr key) /\
       authorize cfg (store (u "private_key") (VStr (unescape_newlines key)) d)
       = Some client) <->
    (msgs = [] /\
     exists d0 key,
       Some d = Some d0 /\
       lookup (u "private_key") d0 = Some (VStr key) /\
       authorize cfg
         (store (u "private_key") (VStr (unescape_newlines key)) d0)
       = Some client)).
  { intros d client msgs. split.
    - intros [Hm [key [Hk Ha]]]. split; [exact Hm|]. exists d, key. auto.
    - intros [Hm [d0 [key [Hf [Hk Ha]]]]]. inversion Hf. subst d0.
      split; [exact Hm|]. exists key. auto. }
  assert (Z0 : forall client (msgs : list connect_msg),
    ~ (msgs = [] /\
       exists (d0 : dict) (key : str),
         @None dict = Some d0 /\
         lookup (u "private_key") d0 = Some (VStr key) /\
         authorize cfg
           (store (u "private_key") (VStr (unescape_newlines key)) d0)
         = Some client)).
  { intros client msgs [_ [d0 [key [Hf _]]]]. discriminate. }
  unfold get_gsheet_client, found_credentials.
  split; [|split; [|split]].
  - intros client msgs.
    destruct (secrets_gcp cfg) as [| |[d|]].
    + split; [discriminate | intros H; destruct (Z0 _ _ H)].
    + destruct (getenv_gcp_json cfg) as [[|c s]|].
      * split; [discriminate | intros H; destruct (Z0 _ _ H)].
      * destruct (json_loads cfg (c :: s)) as [[d|]|].
        -- split.
           ++ intros H. apply (proj1 (O d client msgs)).
              apply (proj1 (C d client msgs)). exact H.
           ++ intros H. apply (proj2 (C d client msgs)).
              apply (proj2 (O d client msgs)). exact H.
        -- split; [discriminate | intros H; destruct (Z0 _ _ H)].
        -- split; [discriminate | intros H; destruct (Z0 _ _ H)].
      * split; [discriminate | intros H; destruct (Z0 _ _ H)].
    + split.
      * intros H. apply (proj1 (O d client msgs)).
        apply (proj1 (C d client msgs)). exact H.
      * intros H. apply (proj2 (C d client msgs)).
        apply (proj2 (O d client msgs)). exact H.
    + split; [discriminate | intros H; destruct (Z0 _ _ H)].
  - intros d key. cbv zeta.
    split; [apply lookup_store_same|].
    split; [apply (unescape_newlines_clean_upto (List.length key)); lia|].
    intros k Hne. apply lookup_store_other. exact Hne.
  - intros msgs H.
    destruct (secrets_gcp cfg) as [| |[d|]];
      [ inversion H; eauto | | exact (N d msgs H) | inversion H; eauto ].
    destruct (getenv_gcp_json cfg) as [[|c s]|];
      [ inversion H; eauto | | inversion H; eauto ].
    destruct (json_loads cfg (c :: s)) as [[d|]|];
      [ exact (N d msgs H) | inversion H; eauto | inversion H; eauto ].
  - destruct (secrets_gcp cfg) as [| |[d|]].
    + split; [discriminate | intros [H _]; discriminate].
    + destruct (getenv_gcp_json cfg) as [[|c s]|].
      * split; [intros _; split; [reflexivity | right; reflexivity]
               | intros _; reflexivity].
      * destruct (json_loads cfg (c :: s)) as [[d|]|].
        -- split; [intros H; destruct (E d H)
                  | intros [_ [H|H]]; discriminate].
        -- split; [discriminate | intros [_ [H|H]]; discriminate].
        -- split; [discriminate | intros [_ [H|H]]; discriminate].
      * split; [intros _; split; [reflexivity | left; reflexivity]
               | intros _; reflexivity].
    + split; [intros H; destruct (E d H) | intros [H _]; discriminate].
    + split; [discriminate | intros [H _]; discriminate].
Qed.

(** X25.  The secrets section goes first: when it is there, the environment
    variable is not read and the JSON reader is not called, so that a
    secrets section that does not work is not made up for by a working
    environment variable. *)
Theorem get_gsheet_client_secrets_first {Client : Type}
    (cfg cfg' : Config Client) (doc : document) :
  secrets_gcp cfg = Entry doc -> secrets_gcp cfg' = Entry doc ->
  (forall d, authorize cfg' d = authorize cfg d) ->
  get_gsheet_client cfg' = get_gsheet_client cfg.
Proof.
  intros H H' Ha. unfold get_gsheet_client. rewrite H, H'.
  destruct doc as [d|]; [|reflexivity].
  destruct (lookup (u "private_key") d) as [[key|]|]; try reflexivity.
  rewrite Ha. reflexivity.
Qed.

Lemma get_gsheet_client_outcomes_witness :
  get_gsheet_client with_secrets =
    (Some [ (u "type", VStr (u "service_account"));
            (u "private_key",
             VStr (u "-----BEGIN-----" ++ [newline] ++ u "MIIE"));
            (u "client_email", VStr (u "bank@example.org")) ], []).
Proof.
  apply (proj2 (proj1 (get_gsheet_client_outcomes with_secrets) _ _)).
  split; [reflexivity|].
  exists service_account, (u "-----BEGIN-----\nMIIE").
  split; [reflexivity|]. split; reflexivity.
Defined.

Lemma get_gsheet_client_secrets_first_witness :
  get_gsheet_client with_secrets_and_env = get_gsheet_client with_secrets.
Proof.
  apply (get_gsheet_client_secrets_first with_secrets with_secrets_and_env
           (DObject service_account)).
  - reflexivity.
  - reflexivity.
  - intros d. reflexivity.
Defined.
